(** * hivemind.p2p.p2p_daemon_bindings.control

    A shallow embedding of the control client of the p2p daemon bindings
    ([control.py]) and the properties of its endpoint resolver, connector,
    handler registries, call correlator and persistent-channel loops.

    Python dictionaries are [gmap]s, the outbound [asyncio.Queue] is a list
    in enqueue order, futures live in a store addressed by reference, and
    every coroutine is a function on an explicit [World] that returns the
    new world together with the value returned or the exception raised. *)

From Stdlib Require Import ZArith NArith Lia Ascii String.
From stdpp Require Import gmap strings list fin_maps fin_sets functions.

Local Open Scope string_scope.
Local Open Scope list_scope.

Definition bytes : Type := list Byte.byte.

(** ** External collaborators *)

(** *** The [multiaddr] package: protocol codes and component lookup. *)
Module protocols.
Definition P_IP4 : Z := 4.
Definition P_TCP : Z := 6.
Definition P_IP6 : Z := 41.
Definition P_UNIX : Z := 400.
End protocols.
Import protocols.

(** One component of a multiaddress, [/<protocol>/<value>]. *)
Record Component := { code : Z; value : string }.

Definition Multiaddr : Type := list Component.

(** [maddr.protocols()], as the codes of the protocols in address order. *)
Definition maddr_protocols (maddr : Multiaddr) : list Z := code <$> maddr.

(** *** Exceptions.

    One constructor per Python exception class the module can see; the
    argument of [ValueError] tells the raise sites apart. *)
Inductive ValueErrorArg :=
| connection_protocol_should_be_only_one (maddr : Multiaddr)
| Protocol_not_supported (proto_code : Z)
| Handler_already_assigned (proto : string)
| invalid_literal_for_int (s : string)
| bytes_is_not_a_16_char_string.

(** What the code can observe of an object raised by a user callback:
    whether an [except Exception] clause matches it, and its [repr]. *)
Record Raised := { is_Exception : bool; repr : string }.

Inductive Error :=
| ValueError (arg : ValueErrorArg)
| ProtocolLookupError (proto_code : Z)
| IndexError
| KeyError (key : string)
| KeyError_call_id (call_id : N)
| DispatchFailure (cause : Error)
| P2PHandlerError (msg : string)
| ControlFailure (msg : string)
| InvalidStateError
| CancelledError
| AssertionError
| LockTypeError
| ConnectionError (msg : string)
| ReadError (msg : string)
| UserRaised (e : Raised).

(** A call either returns or raises. *)
Definition Outcome (A : Type) : Type := Error + A.
Abbreviation Return := (@inr Error _).
Abbreviation Raise := (@inl Error _).

(** [maddr.value_for_protocol(code)]: the value of the first component
    with that protocol; [ProtocolLookupError] when there is none. *)
Fixpoint value_for_protocol (maddr : Multiaddr) (c : Z) : Outcome string :=
  match maddr with
  | [] => Raise (ProtocolLookupError c)
  | comp :: rest =>
      if decide (code comp = c) then Return (value comp)
      else value_for_protocol rest c
  end.

(** [int(s)] on the decimal strings a multiaddress carries as a port. *)
Definition digit_of_ascii (a : ascii) : option Z :=
  let n := Z.of_nat (nat_of_ascii a) in
  if decide (48 ≤ n ≤ 57)%Z then Some (n - 48)%Z else None.

Fixpoint int_digits (acc : Z) (s : string) : option Z :=
  match s with
  | EmptyString => Some acc
  | String a rest =>
      match digit_of_ascii a with
      | Some d => int_digits (acc * 10 + d)%Z rest
      | None => None
      end
  end.

Definition int (s : string) : Outcome Z :=
  match s with
  | EmptyString => Raise (ValueError (invalid_literal_for_int s))
  | _ => match int_digits 0%Z s with
         | Some n => Return n
         | None => Raise (ValueError (invalid_literal_for_int s))
         end
  end.

(** ** Endpoint resolver *)

Definition SUPPORT_CONN_PROTOCOLS : list Z := [P_IP4; P_UNIX].

Definition parse_conn_protocol (maddr : Multiaddr) : Outcome Z :=
  let proto_codes : gset Z := list_to_set (maddr_protocols maddr) in
  let proto_cand : gset Z := proto_codes ∩ list_to_set SUPPORT_CONN_PROTOCOLS in
  if decide (size proto_cand ≠ 1) then
    Raise (ValueError (connection_protocol_should_be_only_one maddr))
  else
    match elements proto_cand with
    | c :: _ => Return c
    | [] => Raise IndexError
    end.

(** ** Connector *)

Definition DEFAULT_CONTROL_MADDR : Multiaddr :=
  [ {| code := P_UNIX; value := "/tmp/p2pd.sock" |} ].

Record DaemonConnector := {
  control_maddr : Multiaddr;
  proto_code : Z
}.

(** [DaemonConnector.__init__]. *)
Definition DaemonConnector_init (maddr : Multiaddr) : Outcome DaemonConnector :=
  match parse_conn_protocol maddr with
  | inl e => Raise e
  | inr c => Return {| control_maddr := maddr; proto_code := c |}
  end.

(** The target handed to [asyncio.open_unix_connection] or
    [asyncio.open_connection]. *)
Inductive Endpoint :=
| UnixEndpoint (control_path : string)
| TcpEndpoint (host : string) (port : Z).

(** The part of [open_connection] that selects the transport: the endpoint
    the connection is then opened to, or the exception raised before any
    connection is attempted. *)
Definition open_connection_endpoint (dc : DaemonConnector) : Outcome Endpoint :=
  if decide (proto_code dc = P_UNIX) then
    match value_for_protocol (control_maddr dc) P_UNIX with
    | inl e => Raise e
    | inr control_path => Return (UnixEndpoint control_path)
    end
  else if decide (proto_code dc = P_IP4) then
    match value_for_protocol (control_maddr dc) P_IP4 with
    | inl e => Raise e
    | inr host =>
        match value_for_protocol (control_maddr dc) P_TCP with
        | inl e => Raise e
        | inr p =>
            match int p with
            | inl e => Raise e
            | inr port => Return (TcpEndpoint host port)
            end
        end
    end
  else Raise (ValueError (Protocol_not_supported (proto_code dc))).

(** *** [uuid.UUID]: a call identifier is the 128-bit integer of the UUID. *)
Definition CallID : Type := N.

Definition int_from_bytes (b : bytes) : N :=
  fold_left (λ acc x, (acc * 256 + Byte.to_N x)%N) b 0%N.

Fixpoint int_to_bytes (len : nat) (n : N) : bytes :=
  match len with
  | O => []
  | S k => int_to_bytes k (n / 256)%N ++ [default Byte.x00 (Byte.of_N (n mod 256)%N)]
  end.

(** [uuid.UUID(bytes=b)] *)
Definition UUID (b : bytes) : Outcome CallID :=
  if decide (length b = 16) then Return (int_from_bytes b)
  else Raise (ValueError bytes_is_not_a_16_char_string).

(** [call_id.bytes] *)
Definition UUID_bytes (call_id : CallID) : bytes := int_to_bytes 16 call_id.

(** *** Peer identities and stream metadata ([datastructures]). *)
Record PeerID := { to_bytes : bytes }.

Record StreamInfoPb := { pb_peer : bytes; pb_addr : bytes; pb_proto : string }.

Record StreamInfo := { peer_id : PeerID; addr : bytes; proto : string }.

(** Modelled from the spec: [StreamInfo.from_protobuf], which is not among the
    sources; the spec has StreamInfo as the protocol name plus peer identity
    and connection parameters, consumed as an opaque decoded value. *)
Definition StreamInfo_from_protobuf (pb : StreamInfoPb) : StreamInfo :=
  {| peer_id := {| to_bytes := pb_peer pb |};
     addr := pb_addr pb;
     proto := pb_proto pb |}.

(** *** Wire messages ([p2pd_pb]). *)
Module p2pd_pb.

(** Modelled from the spec: the message declarations are not among the
    sources; the spec has a call-unary-response carrying either a success
    payload or an error string, keyed by the call identifier. *)
Inductive CallUnaryResult :=
| result (payload : bytes)
| error (msg : string)
| unset.

Record CallUnaryResponse := {
  callId : bytes;
  outcome : CallUnaryResult
}.

Record CallUnaryRequest := {
  req_peer : bytes;
  req_proto : string;
  req_data : bytes;
  req_callId : bytes
}.

(** A request is its [type] together with the sub-message of that type.
    The listen address of [STREAM_HANDLER] stands for its encoding
    [listen_maddr.to_bytes()]. *)
Inductive Request :=
| PERSISTENT_CONN_UPGRADE
| STREAM_HANDLER (listen_addr : Multiaddr) (protos : list string)
| ADD_UNARY_HANDLER (handled_proto : string)
| CALL_UNARY (callUnary : CallUnaryRequest)
| SEND_RESPONSE_TO_REMOTE (sendResponseToRemote : CallUnaryResponse).

Inductive ResponseType := OK | ERROR.

Record Response := {
  type : ResponseType;
  error_msg : string;
  callUnaryResponse : option CallUnaryResponse;
  requestHandling : option CallUnaryRequest
}.

End p2pd_pb.
Import p2pd_pb.

(** Modelled from the spec: [raise_if_failed] of [utils], the status-check
    helper that turns a response's embedded status into a thrown error or a
    pass-through. *)
Definition raise_if_failed (resp : Response) : Outcome unit :=
  match type resp with
  | ERROR => Raise (ControlFailure (error_msg resp))
  | OK => Return tt
  end.

(** *** [asyncio]: futures, the lock, tasks and stream handles. *)
Inductive Future :=
| PENDING
| FINISHED (res : bytes)
| FAILED (exc : Error)
| CANCELLED.

(** [Future.set_result] and [Future.set_exception] raise
    [InvalidStateError] unless the future is still pending. *)
Definition set_result (fut : Future) (res : bytes) : Outcome Future :=
  match fut with
  | PENDING => Return (FINISHED res)
  | _ => Raise InvalidStateError
  end.

Definition set_exception (fut : Future) (exc : Error) : Outcome Future :=
  match fut with
  | PENDING => Return (FAILED exc)
  | _ => Raise InvalidStateError
  end.

(** What [await fut] gives once the future is done; [None] while it is
    pending, when the awaiting coroutine stays suspended. *)
Definition future_done (fut : Future) : option (Outcome bytes) :=
  match fut with
  | PENDING => None
  | FINISHED res => Some (Return res)
  | FAILED exc => Some (Raise exc)
  | CANCELLED => Some (Raise CancelledError)
  end.

Record Lock := { locked : bool }.

(** The synchronous context-manager protocol, which a plain [with]
    statement uses.  [asyncio.Lock] implements the asynchronous protocol
    ([async with]) only: its [__enter__] raises on Python 3.7 and 3.8, and
    later versions have no [__enter__], so that the [with] statement raises
    before its body runs and the lock is not acquired. *)
Definition Lock_enter (lock : Lock) : Outcome unit := Raise LockTypeError.

Definition StreamReader : Type := nat.
Definition StreamWriter : Type := nat.

Inductive Task :=
| read_task (reader : StreamReader)
| write_task (writer : StreamWriter)
| request_task (request : CallUnaryRequest).

(** The effects of the client on its surroundings, in the order they occur. *)
Inductive Event :=
| connected (endpoint : Endpoint) (reader : StreamReader) (writer : StreamWriter)
| wrote (writer : StreamWriter) (msg : Request)
| closed (writer : StreamWriter)
| created_task (task : Task)
| logged (msg : string).

(** ** The control client *)

(** A unary handler is a callable object: it is called with the payload
    and the remote peer and returns the response payload or raises.
    [truth_value] is what [bool(handler)] gives: true for a function or a
    coroutine function, and whatever [__bool__] or [__len__] say for an
    instance of a class with [__call__]. *)
Record TUnaryHandler := {
  truth_value : bool;
  handler_call :> bytes → PeerID → Raised + bytes
}.

(** The truth value of [unary_handlers.get(proto)]: [None], the result
    for a protocol without an entry, is falsy. *)
Definition truthy (found : option TUnaryHandler) : bool :=
  match found with
  | Some handler => truth_value handler
  | None => false
  end.

(** A stream handler is called with the stream metadata and the two ends
    of the connection; it acts on the connection and returns or raises. *)
Definition StreamHandler : Type :=
  StreamInfo → StreamReader → StreamWriter → list Event * Outcome unit.

Definition DEFAULT_LISTEN_MADDR : Multiaddr :=
  [ {| code := P_UNIX; value := "/tmp/p2pclient.sock" |} ].

(** The attributes of a [ControlClient].  [pending_messages] is the queue,
    oldest message first; [pending_calls] maps a call identifier to a
    reference into the store of futures. *)
Record ControlClient := {
  listen_maddr : Multiaddr;
  daemon_connector : DaemonConnector;
  handlers : gmap string StreamHandler;
  _pers_conn_open : bool;
  unary_handlers : gmap string TUnaryHandler;
  _ensure_conn_lock : Lock;
  pending_messages : list Request;
  pending_calls : gmap CallID nat
}.

(** [ControlClient.__init__] *)
Definition ControlClient_init (connector : DaemonConnector) (maddr : Multiaddr)
  : ControlClient :=
  {| listen_maddr := maddr;
     daemon_connector := connector;
     handlers := ∅;
     _pers_conn_open := false;
     unary_handlers := ∅;
     _ensure_conn_lock := {| locked := false |};
     pending_messages := [];
     pending_calls := ∅ |}.

(** The client, the store of the futures created so far, and the effects
    performed so far. *)
Record World := {
  self : ControlClient;
  futures : nat → Future;
  allocated : nat;
  trace : list Event
}.

Definition World_init (client : ControlClient) : World :=
  {| self := client; futures := λ _, PENDING; allocated := 0; trace := [] |}.

(** The daemon and the transport, as far as the client can observe them:
    what dialling an endpoint gives, and what [read_pbmsg_safe] gives on a
    one-shot connection after a request has been written to it. *)
Record Daemon := {
  dial : Endpoint → Outcome (StreamReader * StreamWriter);
  answer : Request → Outcome Response
}.

(** *** Coroutines as world transformers that return or raise. *)
Definition M (A : Type) : Type := World → World * Outcome A.

Definition ret {A} (a : A) : M A := λ w, (w, Return a).
Definition raise {A} (e : Error) : M A := λ w, (w, Raise e).
Definition bind {A B} (m : M A) (k : A → M B) : M B :=
  λ w, match m w with
       | (w', inl e) => (w', Raise e)
       | (w', inr a) => k a w'
       end.
Definition lift {A} (o : Outcome A) : M A := λ w, (w, o).

Notation "x <- m ;; k" := (bind m (λ x, k))
  (at level 100, m at next level, right associativity).
Notation "m ;;; k" := (bind m (λ _, k))
  (at level 100, right associativity).

Definition get_self : M ControlClient := λ w, (w, Return (self w)).

Definition update_self (f : ControlClient → ControlClient) : M unit :=
  λ w, ({| self := f (self w); futures := futures w;
           allocated := allocated w; trace := trace w |}, Return tt).

Definition emit (evs : list Event) : M unit :=
  λ w, ({| self := self w; futures := futures w;
           allocated := allocated w; trace := trace w ++ evs |}, Return tt).

(** Attribute and dictionary assignments on [self]. *)
Definition with_handlers (h : gmap string StreamHandler) (c : ControlClient) :=
  {| listen_maddr := listen_maddr c; daemon_connector := daemon_connector c;
     handlers := h; _pers_conn_open := _pers_conn_open c;
     unary_handlers := unary_handlers c; _ensure_conn_lock := _ensure_conn_lock c;
     pending_messages := pending_messages c; pending_calls := pending_calls c |}.

Definition with_pers_conn_open (b : bool) (c : ControlClient) :=
  {| listen_maddr := listen_maddr c; daemon_connector := daemon_connector c;
     handlers := handlers c; _pers_conn_open := b;
     unary_handlers := unary_handlers c; _ensure_conn_lock := _ensure_conn_lock c;
     pending_messages := pending_messages c; pending_calls := pending_calls c |}.

Definition with_unary_handlers (h : gmap string TUnaryHandler) (c : ControlClient) :=
  {| listen_maddr := listen_maddr c; daemon_connector := daemon_connector c;
     handlers := handlers c; _pers_conn_open := _pers_conn_open c;
     unary_handlers := h; _ensure_conn_lock := _ensure_conn_lock c;
     pending_messages := pending_messages c; pending_calls := pending_calls c |}.

Definition with_pending_messages (q : list Request) (c : ControlClient) :=
  {| listen_maddr := listen_maddr c; daemon_connector := daemon_connector c;
     handlers := handlers c; _pers_conn_open := _pers_conn_open c;
     unary_handlers := unary_handlers c; _ensure_conn_lock := _ensure_conn_lock c;
     pending_messages := q; pending_calls := pending_calls c |}.

Definition with_pending_calls (p : gmap CallID nat) (c : ControlClient) :=
  {| listen_maddr := listen_maddr c; daemon_connector := daemon_connector c;
     handlers := handlers c; _pers_conn_open := _pers_conn_open c;
     unary_handlers := unary_handlers c; _ensure_conn_lock := _ensure_conn_lock c;
     pending_messages := pending_messages c; pending_calls := p |}.

(** [await self.pending_messages.put(msg)]: the queue is unbounded, so the
    message is appended at once. *)
Definition put (msg : Request) : M unit :=
  update_self (λ c, with_pending_messages (pending_messages c ++ [msg]) c).

(** [asyncio.Future()] *)
Definition new_future : M nat :=
  λ w, ({| self := self w; futures := <[allocated w := PENDING]> (futures w);
           allocated := S (allocated w); trace := trace w |},
        Return (allocated w)).

(** [fut.set_result(res)] and [fut.set_exception(exc)] on a stored future. *)
Definition future_set (fut : nat) (o : Outcome Future) : M unit :=
  λ w, match o with
       | inl e => (w, Raise e)
       | inr f => ({| self := self w; futures := <[fut := f]> (futures w);
                      allocated := allocated w; trace := trace w |}, Return tt)
       end.

Definition future_set_result (fut : nat) (res : bytes) : M unit :=
  λ w, future_set fut (set_result (futures w fut) res) w.

Definition future_set_exception (fut : nat) (exc : Error) : M unit :=
  λ w, future_set fut (set_exception (futures w fut) exc) w.

(** [asyncio.create_task(coro)] *)
Definition create_task (task : Task) : M unit := emit [created_task task].

(** [write_pbmsg(writer, msg)] *)
Definition write_pbmsg (writer : StreamWriter) (msg : Request) : M unit :=
  emit [wrote writer msg].

(** A suspension point: the other tasks of the event loop run until the
    awaited operation has finished. *)
Definition await_others (others : World → World) : M unit :=
  λ w, (others w, Return tt).

(** [DaemonConnector.open_connection] *)
Definition open_connection (d : Daemon) (dc : DaemonConnector)
  : M (StreamReader * StreamWriter) :=
  endpoint <- lift (open_connection_endpoint dc) ;;
  rw <- lift (dial d endpoint) ;;
  emit [connected endpoint (fst rw) (snd rw)] ;;;
  ret rw.

(** [DaemonConnector.open_persistent_connection] *)
Definition open_persistent_connection (d : Daemon) (dc : DaemonConnector)
  : M (StreamReader * StreamWriter) :=
  rw <- open_connection d dc ;;
  write_pbmsg (snd rw) PERSISTENT_CONN_UPGRADE ;;;
  ret rw.

(** [ControlClient._ensure_persistent_conn].  The lock is entered with a
    plain [with] statement, see [Lock_enter]. *)
Definition _ensure_persistent_conn (d : Daemon) : M unit :=
  c <- get_self ;;
  if negb (_pers_conn_open c) then
    lift (Lock_enter (_ensure_conn_lock c)) ;;;
    c <- get_self ;;
    if negb (_pers_conn_open c) then
      rw <- open_persistent_connection d (daemon_connector c) ;;
      create_task (read_task (fst rw)) ;;;
      create_task (write_task (snd rw)) ;;;
      update_self (with_pers_conn_open true)
    else ret tt
  else ret tt.

(** Several callers of [_ensure_persistent_conn], in the order the event
    loop runs them; each gets its own outcome.  A first-time caller raises
    at the [with] statement, before it reaches an [await], so the callers
    do not interleave and concurrent callers run one after another. *)
Fixpoint ensure_callers (d : Daemon) (n : nat) (w : World)
  : World * list (Outcome unit) :=
  match n with
  | O => (w, [])
  | S k =>
      let '(w1, o) := _ensure_persistent_conn d w in
      let '(w2, os) := ensure_callers d k w1 in
      (w2, o :: os)
  end.

(** The persistent connections opened and the loop tasks spawned, read off
    the trace. *)
Definition upgrades (tr : list Event) : list Event :=
  List.filter (λ ev, match ev with
                     | wrote _ PERSISTENT_CONN_UPGRADE => true
                     | _ => false
                     end) tr.

Definition loop_tasks (tr : list Event) : list Event :=
  List.filter (λ ev, match ev with
                     | created_task (read_task _) | created_task (write_task _) => true
                     | _ => false
                     end) tr.

(** [ControlClient.add_unary_handler] *)
Definition add_unary_handler (d : Daemon) (proto : string) (handler : TUnaryHandler)
  : M unit :=
  _ensure_persistent_conn d ;;;
  put (ADD_UNARY_HANDLER proto) ;;;
  c <- get_self ;;
  (if truthy (unary_handlers c !! proto)
   then raise (ValueError (Handler_already_assigned proto))
   else ret tt) ;;;
  update_self (λ c, with_unary_handlers (<[proto := handler]> (unary_handlers c)) c).

(** [self.pending_calls[call_id]] *)
Definition pending_call (call_id : CallID) : M nat :=
  c <- get_self ;;
  match pending_calls c !! call_id with
  | Some fut => ret fut
  | None => raise (KeyError_call_id call_id)
  end.

(** [ControlClient.call_unary_handler] up to the point where it suspends
    on the future of the call; [call_id] is the value of [uuid.uuid4()].
    The result is the future awaited. *)
Definition call_unary_handler_begin (d : Daemon) (call_id : CallID)
    (peer : PeerID) (proto : string) (data : bytes) : M nat :=
  let call_unary_req :=
    {| req_peer := to_bytes peer; req_proto := proto; req_data := data;
       req_callId := UUID_bytes call_id |} in
  let req := CALL_UNARY call_unary_req in
  _ensure_persistent_conn d ;;;
  fut <- new_future ;;
  update_self (λ c, with_pending_calls (<[call_id := fut]> (pending_calls c)) c) ;;;
  put req ;;;
  pending_call call_id.

(** A resumed coroutine completes, or suspends again on a future. *)
Inductive Resumed (A : Type) :=
| Completed (o : Outcome A)
| Suspended (awaiting : nat).
Arguments Completed {A} o.
Arguments Suspended {A} awaiting.

(** The rest of [call_unary_handler], from the [await] of the future
    [fut] on.  The [try] block ends with what the future holds once it is
    done (its result, its exception, or [CancelledError] when the caller
    was cancelled, which cancels the future), or with the exception
    [thrown] into the coroutine at the [await]; the [finally] block then
    pops the entry and awaits the popped future. *)
Definition call_unary_handler_resume (call_id : CallID) (fut : nat)
    (thrown : option Error) (w : World) : World * Resumed bytes :=
  match match thrown with
        | Some e => Some (Raise e)
        | None => future_done (futures w fut)
        end with
  | None => (w, Suspended fut)
  | Some tried =>
      match pending_calls (self w) !! call_id with
      | None => (w, Completed (Raise (KeyError_call_id call_id)))
      | Some popped =>
          let w' := fst (update_self
                           (λ c, with_pending_calls (delete call_id (pending_calls c)) c) w) in
          match future_done (futures w' popped) with
          | None => (w', Suspended popped)
          | Some (inl e) => (w', Completed (Raise e))
          | Some (inr _) => (w', Completed tried)
          end
      end
  end.

(** [ControlClient.call_unary_handler]; [others] is what the rest of the
    event loop does while the caller is suspended, and [thrown] the
    exception thrown into the caller at the [await], if any. *)
Definition call_unary_handler (d : Daemon) (call_id : CallID) (peer : PeerID)
    (proto : string) (data : bytes) (others : World → World)
    (thrown : option Error) (w : World) : World * Resumed bytes :=
  match call_unary_handler_begin d call_id peer proto data w with
  | (w1, inl e) => (w1, Completed (Raise e))
  | (w1, inr fut) => call_unary_handler_resume call_id fut thrown (others w1)
  end.

(** One iteration of the loop of [_read_from_persistent_conn], on the
    response that [read_pbmsg_safe] has decoded. *)
Definition read_iteration (resp : Response) : M unit :=
  match callUnaryResponse resp with
  | Some cur =>
      call_id <- lift (UUID (callId cur)) ;;
      c <- get_self ;;
      match pending_calls c !! call_id, outcome cur with
      | Some fut, result payload => future_set_result fut payload
      | Some fut, error msg => future_set_exception fut (P2PHandlerError msg)
      | _, _ => emit [logged "received unexpected unary call"]
      end
  | None =>
      match requestHandling resp with
      | Some request => create_task (request_task request)
      | None => ret tt
      end
  end.

(** How far the read loop got on the input it was given. *)
Inductive LoopStatus :=
| terminated (e : Error)
| awaiting_input.

(** [ControlClient._read_from_persistent_conn]; the reader is what the
    successive calls of [read_pbmsg_safe] give, a decoded response or the
    exception raised on a frame that cannot be read or decoded. *)
Fixpoint _read_from_persistent_conn (reader : list (Outcome Response)) (w : World)
  : World * LoopStatus :=
  match reader with
  | [] => (w, awaiting_input)
  | inl e :: _ => (w, terminated e)
  | inr resp :: rest =>
      match read_iteration resp w with
      | (w', inl e) => (w', terminated e)
      | (w', inr _) => _read_from_persistent_conn rest w'
      end
  end.

(** [ControlClient._handle_persistent_request]; [others] is what the rest
    of the event loop does while the handler is awaited. *)
Definition _handle_persistent_request (request : CallUnaryRequest)
    (others : World → World) : M unit :=
  c <- get_self ;;
  match (unary_handlers c !! req_proto request : option TUnaryHandler) with
  | None => raise AssertionError
  | Some handler =>
      let remote_id := {| to_bytes := req_peer request |} in
      tried <- (await_others others ;;; ret (handler (req_data request) remote_id)) ;;
      response <-
        match tried with
        | inr response_payload =>
            ret {| callId := req_callId request; outcome := result response_payload |}
        | inl e =>
            if is_Exception e
            then ret {| callId := req_callId request; outcome := error (repr e) |}
            else raise (UserRaised e)
        end ;;
      put (SEND_RESPONSE_TO_REMOTE response)
  end.

(** [ControlClient._handler], the callback of the listening server for
    one accepted connection; [header] is what [read_pbmsg_safe] gives for
    the header frame. *)
Definition _handler (reader : StreamReader) (writer : StreamWriter)
    (header : Outcome StreamInfoPb) : M unit :=
  pb_stream_info <- lift header ;;
  let stream_info := StreamInfo_from_protobuf pb_stream_info in
  c <- get_self ;;
  match handlers c !! proto stream_info with
  | None =>
      emit [closed writer] ;;;
      raise (DispatchFailure (KeyError (proto stream_info)))
  | Some handler =>
      let '(effects, o) := handler stream_info reader writer in
      emit effects ;;;
      lift o
  end.

(** [ControlClient.stream_handler] *)
Definition stream_handler (d : Daemon) (proto : string) (handler_cb : StreamHandler)
  : M unit :=
  c <- get_self ;;
  rw <- open_connection d (daemon_connector c) ;;
  let req := STREAM_HANDLER (listen_maddr c) [proto] in
  write_pbmsg (snd rw) req ;;;
  resp <- lift (answer d req) ;;
  emit [closed (snd rw)] ;;;
  lift (raise_if_failed resp) ;;;
  update_self (λ c, with_handlers (<[proto := handler_cb]> (handlers c)) c).

(** ** The write loop *)

(** One iteration of the loop of [_write_to_persistent_conn]: the oldest
    message is taken from the queue and written; [None] when the queue is
    empty, where [pending_messages.get()] suspends. *)
Definition write_iteration (writer : StreamWriter) (w : World) : option World :=
  match pending_messages (self w) with
  | [] => None
  | msg :: rest =>
      Some (fst ((update_self (with_pending_messages rest) ;;;
                  write_pbmsg writer msg) w))
  end.

(** [ControlClient._write_to_persistent_conn], run for at most
    [iterations] iterations of its loop, until [get] suspends. *)
Fixpoint _write_to_persistent_conn (writer : StreamWriter) (iterations : nat)
    (w : World) : World :=
  match iterations with
  | O => w
  | S n =>
      match write_iteration writer w with
      | None => w
      | Some w' => _write_to_persistent_conn writer n w'
      end
  end.

(** ** The listening server *)

(** The part of [ControlClient.listen] before the server is started: the
    endpoint the server is bound to, or the exception raised. *)
Definition listen_endpoint (c : ControlClient) : Outcome Endpoint :=
  match parse_conn_protocol (listen_maddr c) with
  | inl e => Raise e
  | inr proto_code =>
      if decide (proto_code = P_UNIX) then
        match value_for_protocol (listen_maddr c) P_UNIX with
        | inl e => Raise e
        | inr listen_path => Return (UnixEndpoint listen_path)
        end
      else if decide (proto_code = P_IP4) then
        match value_for_protocol (listen_maddr c) P_IP4 with
        | inl e => Raise e
        | inr host =>
            match value_for_protocol (listen_maddr c) P_TCP with
            | inl e => Raise e
            | inr p =>
                match int p with
                | inl e => Raise e
                | inr port => Return (TcpEndpoint host port)
                end
            end
        end
      else Raise (ValueError (Protocol_not_supported proto_code))
  end.

(** ** One-shot commands

    [identify], [connect], [list_peers], [disconnect] and [stream_open]
    use a connection of their own and none of the attributes of the
    client but its connector. *)

(** The requests of the one-shot commands; an address stands for its
    encoding [to_bytes()]. *)
Inductive Command :=
| IDENTIFY
| CONNECT (peer : bytes) (addrs : list Multiaddr)
| LIST_PEERS
| DISCONNECT (peer : bytes)
| STREAM_OPEN (peer : bytes) (protos : list string).

(** What a command does to its connection, in order. *)
Inductive CommandEvent :=
| cmd_connected (endpoint : Endpoint) (reader : StreamReader) (writer : StreamWriter)
| cmd_wrote (writer : StreamWriter) (req : Command)
| cmd_closed (writer : StreamWriter).

(** The daemon as a command sees it: what dialling gives, and what
    [read_pbmsg_safe] gives after the request has been written. *)
Record CommandDaemon := {
  cmd_dial : Endpoint → Outcome (StreamReader * StreamWriter);
  cmd_answer : Command → Outcome Response
}.

(** A command performs effects and returns or raises. *)
Definition IO (A : Type) : Type := list CommandEvent * Outcome A.

Definition io_ret {A} (a : A) : IO A := ([], Return a).
Definition io_lift {A} (o : Outcome A) : IO A := ([], o).
Definition io_emit (ev : CommandEvent) : IO unit := ([ev], Return tt).
Definition io_bind {A B} (m : IO A) (k : A → IO B) : IO B :=
  match m with
  | (evs, inl e) => (evs, Raise e)
  | (evs, inr a) => (evs ++ fst (k a), snd (k a))
  end.

Notation "x <~ m ;; k" := (io_bind m (λ x, k))
  (at level 100, m at next level, right associativity).
Notation "m ;;~ k" := (io_bind m (λ _, k))
  (at level 100, right associativity).

(** [self.daemon_connector.open_connection()] of a command. *)
Definition cmd_open_connection (d : CommandDaemon) (dc : DaemonConnector)
  : IO (StreamReader * StreamWriter) :=
  endpoint <~ io_lift (open_connection_endpoint dc) ;;
  rw <~ io_lift (cmd_dial d endpoint) ;;
  io_emit (cmd_connected endpoint (fst rw) (snd rw)) ;;~
  io_ret rw.

Section commands.

(** The fields of the response that the message declarations, which are
    not among the sources, give access to, and the decoders of
    [multiaddr] and [datastructures]. *)
Context {PeerInfoPb PeerInfo : Type}.
Variable identify_id : Response → bytes.
Variable identify_addrs : Response → list bytes.
Variable peers : Response → list PeerInfoPb.
Variable streamInfo : Response → StreamInfoPb.
Variable Multiaddr_of_bytes : bytes → Outcome Multiaddr.
Variable PeerInfo_from_protobuf : PeerInfoPb → Outcome PeerInfo.

(** [tuple(f(x) for x in xs)]: the first exception ends the iteration. *)
Fixpoint tuple_of {A B} (f : A → Outcome B) (xs : list A) : Outcome (list B) :=
  match xs with
  | [] => Return []
  | x :: rest =>
      match f x with
      | inl e => Raise e
      | inr y =>
          match tuple_of f rest with
          | inl e => Raise e
          | inr ys => Return (y :: ys)
          end
      end
  end.

(** [ControlClient.identify] *)
Definition identify (d : CommandDaemon) (c : ControlClient)
  : IO (PeerID * list Multiaddr) :=
  rw <~ cmd_open_connection d (daemon_connector c) ;;
  let req := IDENTIFY in
  io_emit (cmd_wrote (snd rw) req) ;;~
  resp <~ io_lift (cmd_answer d req) ;;
  io_emit (cmd_closed (snd rw)) ;;~
  io_lift (raise_if_failed resp) ;;~
  let peer_id_bytes := identify_id resp in
  let maddrs_bytes := identify_addrs resp in
  maddrs <~ io_lift (tuple_of Multiaddr_of_bytes maddrs_bytes) ;;
  let peer_id := {| to_bytes := peer_id_bytes |} in
  io_ret (peer_id, maddrs).

(** [ControlClient.connect] *)
Definition connect (d : CommandDaemon) (c : ControlClient) (peer_id : PeerID)
    (maddrs : list Multiaddr) : IO unit :=
  rw <~ cmd_open_connection d (daemon_connector c) ;;
  let req := CONNECT (to_bytes peer_id) maddrs in
  io_emit (cmd_wrote (snd rw) req) ;;~
  resp <~ io_lift (cmd_answer d req) ;;
  io_emit (cmd_closed (snd rw)) ;;~
  io_lift (raise_if_failed resp).

(** [ControlClient.list_peers] *)
Definition list_peers (d : CommandDaemon) (c : ControlClient) : IO (list PeerInfo) :=
  let req := LIST_PEERS in
  rw <~ cmd_open_connection d (daemon_connector c) ;;
  io_emit (cmd_wrote (snd rw) req) ;;~
  resp <~ io_lift (cmd_answer d req) ;;
  io_emit (cmd_closed (snd rw)) ;;~
  io_lift (raise_if_failed resp) ;;~
  io_lift (tuple_of PeerInfo_from_protobuf (peers resp)).

(** [ControlClient.disconnect] *)
Definition disconnect (d : CommandDaemon) (c : ControlClient) (peer_id : PeerID)
  : IO unit :=
  let req := DISCONNECT (to_bytes peer_id) in
  rw <~ cmd_open_connection d (daemon_connector c) ;;
  io_emit (cmd_wrote (snd rw) req) ;;~
  resp <~ io_lift (cmd_answer d req) ;;
  io_emit (cmd_closed (snd rw)) ;;~
  io_lift (raise_if_failed resp).

(** [ControlClient.stream_open] *)
Definition stream_open (d : CommandDaemon) (c : ControlClient) (peer_id : PeerID)
    (protocols : list string) : IO (StreamInfo * StreamReader * StreamWriter) :=
  rw <~ cmd_open_connection d (daemon_connector c) ;;
  let req := STREAM_OPEN (to_bytes peer_id) protocols in
  io_emit (cmd_wrote (snd rw) req) ;;~
  resp <~ io_lift (cmd_answer d req) ;;
  io_lift (raise_if_failed resp) ;;~
  let pb_stream_info := streamInfo resp in
  let stream_info := StreamInfo_from_protobuf pb_stream_info in
  io_ret (stream_info, fst rw, snd rw).

End commands.

(** The connection of a command: the endpoint of the connector resolves
    and dialling it gives the two ends. *)
Definition dials (d : CommandDaemon) (c : ControlClient) (endpoint : Endpoint)
    (reader : StreamReader) (writer : StreamWriter) : Prop :=
  open_connection_endpoint (daemon_connector c) = Return endpoint
  ∧ cmd_dial d endpoint = Return (reader, writer).

(** A response for [call_id] that carries an error message. *)
Definition error_response (call_id : CallID) (msg : string) : Response :=
  {| type := OK; error_msg := "";
     callUnaryResponse := Some {| callId := UUID_bytes call_id; outcome := error msg |};
     requestHandling := None |}.

(** ** Predicates of the properties *)

(** A supported transport kind that occurs in the address. *)
Definition present (maddr : Multiaddr) (c : Z) : Prop :=
  c ∈ maddr_protocols maddr ∧ c ∈ SUPPORT_CONN_PROTOCOLS.

(** Exactly one supported transport kind occurs in the address, and it
    is [c]. *)
Definition only_present (maddr : Multiaddr) (c : Z) : Prop :=
  present maddr c ∧ ∀ c', present maddr c' → c' = c.

(** The effects of the read loop itself: it logs and it creates the
    tasks of inbound calls. *)
Definition read_loop_event (ev : Event) : Prop :=
  match ev with
  | created_task (request_task _) | logged _ => True
  | _ => False
  end.

(** What the read loop may change between two worlds: nothing of the
    client, no future that is done, no future outside the pending-call
    table, and of the effects only those of [read_loop_event]. *)
Definition read_loop_frame (w w' : World) : Prop :=
  self w' = self w
  ∧ allocated w' = allocated w
  ∧ (∀ fut, futures w fut ≠ PENDING → futures w' fut = futures w fut)
  ∧ (∀ fut, (∀ call_id, pending_calls (self w) !! call_id ≠ Some fut) →
            futures w' fut = futures w fut)
  ∧ ∃ events, trace w' = trace w ++ events ∧ Forall read_loop_event events.

(** ** Concrete clients, handlers and worlds *)

(** The connector of the default control address. *)
Definition default_connector : DaemonConnector :=
  {| control_maddr := DEFAULT_CONTROL_MADDR; proto_code := P_UNIX |}.

Definition example_daemon : Daemon :=
  {| dial := λ _, Return (1, 1);
     answer := λ _, Return {| type := OK; error_msg := ""; callUnaryResponse := None;
                              requestHandling := None |} |}.

(** A client whose persistent channel is up. *)
Definition established_client : ControlClient :=
  with_pers_conn_open true (ControlClient_init default_connector DEFAULT_LISTEN_MADDR).

Definition echo : TUnaryHandler :=
  {| truth_value := true; handler_call := λ data _, inr data |}.

(** A handler whose task is cancelled while it runs: [CancelledError]
    derives from [BaseException] and is not an instance of [Exception]
    (Python 3.8 and later), like [SystemExit] and [KeyboardInterrupt]. *)
Definition cancelled_handler : TUnaryHandler :=
  {| truth_value := true;
     handler_call := λ _ _, inl {| is_Exception := false; repr := "CancelledError()" |} |}.

(** A callable object that is falsy: an instance of a class that defines
    [__call__] and whose [__len__] returns 0 (or whose [__bool__] returns
    [False]); called, it echoes the payload. *)
Definition falsy_handler : TUnaryHandler :=
  {| truth_value := false; handler_call := λ data _, inr data |}.

Definition hello : bytes := [Byte.x68; Byte.x69].
Definition again : bytes := [Byte.x68; Byte.x6f].

Definition example_call_id : CallID := 7%N.

Definition result_response (call_id : CallID) (payload : bytes) : Response :=
  {| type := OK; error_msg := "";
     callUnaryResponse := Some {| callId := UUID_bytes call_id; outcome := result payload |};
     requestHandling := None |}.

Definition inbound_echo_request : CallUnaryRequest :=
  {| req_peer := [Byte.x01]; req_proto := "echo/1.0"; req_data := hello;
     req_callId := UUID_bytes example_call_id |}.

(** One call is outstanding and its future is pending. *)
Definition one_pending_call : World :=
  {| self := with_pending_calls {[example_call_id := 0]} established_client;
     futures := λ _, PENDING; allocated := 1; trace := [] |}.

(** The same call after its result has arrived, before the caller has run
    and popped the entry. *)
Definition one_resolved_call : World :=
  {| self := with_pending_calls {[example_call_id := 0]} established_client;
     futures := <[0 := FINISHED hello]> (λ _, PENDING); allocated := 1; trace := [] |}.

Definition serving (handler : TUnaryHandler) : World :=
  World_init (with_unary_handlers {["echo/1.0" := handler]} established_client).

(** A client as constructed, with [_pers_conn_open] false, in whose
    registry [echo] has been stored for ["echo/1.0"]. *)
Definition registered_not_established : World :=
  World_init (with_unary_handlers {["echo/1.0" := echo]}
                (ControlClient_init default_connector DEFAULT_LISTEN_MADDR)).

(** The call of the example: the read loop resolves the future with the
    payload while the caller is suspended. *)
Definition result_arrives (w : World) : World :=
  fst (read_iteration (result_response example_call_id hello) w).

(** A daemon that accepts every command. *)
Definition ok_response : Response :=
  {| type := OK; error_msg := ""; callUnaryResponse := None; requestHandling := None |}.

Definition example_command_daemon : CommandDaemon :=
  {| cmd_dial := λ _, Return (1, 2); cmd_answer := λ _, Return ok_response |}.

(** An ip4 address with a udp component and no tcp component. *)
Definition ip4_udp_maddr : Multiaddr :=
  [ {| code := P_IP4; value := "127.0.0.1" |}; {| code := 273%Z; value := "53" |} ].

(** An ip4 address with its tcp port, and an address with the same
    protocols in another order and with a repeated component. *)
Definition ip4_tcp_maddr : Multiaddr :=
  [ {| code := P_IP4; value := "127.0.0.1" |}; {| code := P_TCP; value := "4001" |} ].

Definition tcp_ip4_ip4_maddr : Multiaddr :=
  [ {| code := P_TCP; value := "4001" |}; {| code := P_IP4; value := "127.0.0.1" |};
    {| code := P_IP4; value := "10.0.0.1" |} ].

(** A result frame whose call identifier has one byte instead of 16. *)
Definition short_call_id_response : Response :=
  {| type := OK; error_msg := "";
     callUnaryResponse := Some {| callId := [Byte.x01]; outcome := result hello |};
     requestHandling := None |}.

(** A frame of the persistent channel that carries an inbound call. *)
Definition inbound_call_frame : Response :=
  {| type := OK; error_msg := ""; callUnaryResponse := None;
     requestHandling := Some inbound_echo_request |}.

(** Two messages have been put on the queue of an established client. *)
Definition two_queued : World :=
  fst ((put PERSISTENT_CONN_UPGRADE ;;; put (ADD_UNARY_HANDLER "echo/1.0"))
         (World_init established_client)).

(** A stream handler that closes the stream at once, and the metadata of
    an inbound stream for ["echo/1.0"]. *)
Definition closing_stream_handler : StreamHandler :=
  λ _ _ writer, ([closed writer], Return tt).

Definition echo_stream_pb : StreamInfoPb :=
  {| pb_peer := [Byte.x01]; pb_addr := [Byte.x04]; pb_proto := "echo/1.0" |}.

(** * Properties *)

(** ** Endpoint resolver and connector *)
Section endpoint_resolver.

Implicit Types (maddr : Multiaddr) (c : Z).

Lemma present_cases maddr c :
  present maddr c ↔
  (c = P_IP4 ∧ P_IP4 ∈ maddr_protocols maddr)
  ∨ (c = P_UNIX ∧ P_UNIX ∈ maddr_protocols maddr).
Proof.
  unfold present, SUPPORT_CONN_PROTOCOLS.
  rewrite !elem_of_cons, elem_of_nil. naive_solver.
Qed.

Lemma supported_candidates maddr c :
  c ∈ (list_to_set (maddr_protocols maddr) ∩ list_to_set SUPPORT_CONN_PROTOCOLS : gset Z)
  ↔ present maddr c.
Proof. by rewrite elem_of_intersection, !elem_of_list_to_set. Qed.

Lemma parse_conn_protocol_cases maddr :
  let ip4 := P_IP4 ∈ maddr_protocols maddr in
  let unix := P_UNIX ∈ maddr_protocols maddr in
  (ip4 ∧ ¬ unix ∧ parse_conn_protocol maddr = Return P_IP4)
  ∨ (unix ∧ ¬ ip4 ∧ parse_conn_protocol maddr = Return P_UNIX)
  ∨ (((ip4 ∧ unix) ∨ (¬ ip4 ∧ ¬ unix))
     ∧ parse_conn_protocol maddr
       = Raise (ValueError (connection_protocol_should_be_only_one maddr))).
Proof.
  intros ip4 unix. unfold parse_conn_protocol.
  set (cand := (_ ∩ _ : gset Z)).
  assert (Hc : ∀ c, c ∈ cand ↔
               (c = P_IP4 ∧ ip4) ∨ (c = P_UNIX ∧ unix)).
  { intros c. unfold cand. rewrite supported_candidates. apply present_cases. }
  assert (Hne : P_IP4 ≠ P_UNIX) by (unfold P_IP4, P_UNIX; lia).
  destruct (decide ip4) as [H4|H4], (decide unix) as [Hu|Hu].
  - right; right. split; [by left; split|].
    assert (cand = {[P_IP4]} ∪ {[P_UNIX]}) as ->.
    { apply set_eq. intros c. rewrite Hc. set_solver. }
    rewrite size_union, !size_singleton by set_solver. by case_decide.
  - left. split; [done|]. split; [done|].
    assert (cand = {[P_IP4]}) as ->.
    { apply set_eq. intros c. rewrite Hc. set_solver. }
    rewrite size_singleton, elements_singleton. by case_decide.
  - right; left. split; [done|]. split; [done|].
    assert (cand = {[P_UNIX]}) as ->.
    { apply set_eq. intros c. rewrite Hc. set_solver. }
    rewrite size_singleton, elements_singleton. by case_decide.
  - right; right. split; [by right; split|].
    assert (cand = ∅) as ->.
    { apply set_eq. intros c. rewrite Hc. set_solver. }
    rewrite size_empty. by case_decide.
Qed.

(** C7: [parse_conn_protocol] returns a transport code exactly when
    exactly one supported transport kind occurs in the address (and
    returns that kind); when none or more than one occurs it raises the
    unsupported-transport [ValueError]; it does nothing else, so it never
    picks one of several candidates. *)
Theorem parse_conn_protocol_exactly_one maddr :
  (∀ c, parse_conn_protocol maddr = Return c ↔ only_present maddr c)
  ∧ (parse_conn_protocol maddr
       = Raise (ValueError (connection_protocol_should_be_only_one maddr))
     ↔ ¬ ∃ c, only_present maddr c)
  ∧ ((∃ c, parse_conn_protocol maddr = Return c)
     ∨ parse_conn_protocol maddr
       = Raise (ValueError (connection_protocol_should_be_only_one maddr))).
Proof.
  assert (Hne : P_IP4 ≠ P_UNIX) by (unfold P_IP4, P_UNIX; lia).
  unfold only_present.
  destruct (parse_conn_protocol_cases maddr)
    as [(H4 & Hu & ->)|[(Hu & H4 & ->)|(H & ->)]]; cbn zeta in *.
  - split; [|split; [|left; eauto]].
    + intros c. setoid_rewrite present_cases. split.
      * intros [= <-]. naive_solver.
      * intros [[[-> _]|[-> ?]] _]; done.
    + split; [done|]. intros []. exists P_IP4.
      setoid_rewrite present_cases. naive_solver.
  - split; [|split; [|left; eauto]].
    + intros c. setoid_rewrite present_cases. split.
      * intros [= <-]. naive_solver.
      * intros [[[-> ?]|[-> _]] _]; done.
    + split; [done|]. intros []. exists P_UNIX.
      setoid_rewrite present_cases. naive_solver.
  - split; [|split; [|by right]].
    + intros c. split; [done|]. setoid_rewrite present_cases.
      intros [Hc Huniq]. destruct H as [[H4 Hu]|[H4 Hu]]; [|naive_solver].
      assert (P_IP4 = c) by (apply Huniq; auto).
      assert (P_UNIX = c) by (apply Huniq; auto). congruence.
    + split; [|done]. intros _ [c [Hc Huniq]].
      setoid_rewrite present_cases in Hc. setoid_rewrite present_cases in Huniq.
      destruct H as [[H4 Hu]|[H4 Hu]]; [|naive_solver].
      assert (P_IP4 = c) by (apply Huniq; auto).
      assert (P_UNIX = c) by (apply Huniq; auto). congruence.
Qed.

(** C9: a [DaemonConnector] that was constructed stores the unix or the
    ip4 transport code, and [open_connection] cannot reach its
    "Protocol not supported" branch on it. *)
Theorem DaemonConnector_protocol_supported maddr dc :
  DaemonConnector_init maddr = Return dc →
  (proto_code dc = P_UNIX ∨ proto_code dc = P_IP4)
  ∧ ∀ c, open_connection_endpoint dc ≠ Raise (ValueError (Protocol_not_supported c)).
Proof.
  unfold DaemonConnector_init. intros Hinit.
  assert (Hcode : proto_code dc = P_UNIX ∨ proto_code dc = P_IP4).
  { destruct (parse_conn_protocol_cases maddr)
      as [(_ & _ & E)|[(_ & _ & E)|(_ & E)]];
      rewrite E in Hinit; cbn in Hinit; [| |done];
      injection Hinit as <-; cbn; auto. }
  split; [done|]. intros c. unfold open_connection_endpoint.
  assert (Hval : ∀ m k c', value_for_protocol m k
                           ≠ Raise (ValueError (Protocol_not_supported c'))).
  { induction m as [|comp m IH]; intros k c'; cbn; [done|].
    case_decide; [done|apply IH]. }
  assert (Hint : ∀ s c', int s ≠ Raise (ValueError (Protocol_not_supported c'))).
  { intros s c'. unfold int. destruct s; [done|]. by destruct (int_digits _ _). }
  repeat case_decide; [| |naive_solver].
  - destruct (value_for_protocol _ P_UNIX) eqn:E; [|done].
    intros [= ->]. by eapply Hval.
  - destruct (value_for_protocol _ P_IP4) eqn:E4.
    { intros [= ->]. by eapply Hval. }
    destruct (value_for_protocol _ P_TCP) eqn:E6.
    { intros [= ->]. by eapply Hval. }
    destruct (int _) eqn:Ei; [|done].
    intros [= ->]. by eapply Hint.
Qed.

Lemma DaemonConnector_protocol_supported_default :
  (proto_code default_connector = P_UNIX ∨ proto_code default_connector = P_IP4)
  ∧ ∀ c, open_connection_endpoint default_connector
         ≠ Raise (ValueError (Protocol_not_supported c)).
Proof.
  apply (DaemonConnector_protocol_supported DEFAULT_CONTROL_MADDR default_connector).
  vm_compute. reflexivity.
Defined.

End endpoint_resolver.

(** ** Establishing the persistent channel *)
Section persistent_channel.

Implicit Types (w : World) (d : Daemon).

Lemma ensure_established d w :
  _pers_conn_open (self w) = true →
  _ensure_persistent_conn d w = (w, Return tt).
Proof.
  intros Hopen. unfold _ensure_persistent_conn, bind, get_self; cbn.
  by rewrite Hopen.
Qed.

Lemma ensure_not_established d w :
  _pers_conn_open (self w) = false →
  _ensure_persistent_conn d w = (w, Raise LockTypeError).
Proof.
  intros Hopen. unfold _ensure_persistent_conn, bind, get_self; cbn.
  by rewrite Hopen.
Qed.

Lemma ensure_callers_not_established d n w :
  _pers_conn_open (self w) = false →
  ensure_callers d n w = (w, replicate n (Raise LockTypeError)).
Proof.
  intros Hopen. induction n as [|n IH]; [done|].
  cbn [ensure_callers replicate].
  by rewrite ensure_not_established, IH.
Qed.

(** C2: on a client as constructed, any number of callers of
    [_ensure_persistent_conn], run in any order, all fail at the plain
    [with] on the [asyncio.Lock]: no persistent connection is opened, no
    loop task is spawned and [_pers_conn_open] stays false, so the channel
    is established zero times and not exactly once. *)
Theorem ensure_persistent_conn_never_establishes d connector maddr n :
  let w0 := World_init (ControlClient_init connector maddr) in
  ensure_callers d n w0 = (w0, replicate n (Raise LockTypeError))
  ∧ upgrades (trace (fst (ensure_callers d n w0))) = []
  ∧ loop_tasks (trace (fst (ensure_callers d n w0))) = []
  ∧ _pers_conn_open (self (fst (ensure_callers d n w0))) = false.
Proof.
  intros w0.
  assert (E : ensure_callers d n w0 = (w0, replicate n (Raise LockTypeError)))
    by by apply ensure_callers_not_established.
  by rewrite E.
Qed.

End persistent_channel.

(** ** Handler registry and call correlator *)
Section registry_and_correlator.

Implicit Types (w : World) (d : Daemon) (proto : string) (call_id : CallID).

(** A registration on an established channel: the request is enqueued,
    then the stored handler, if it is truthy, makes the call raise, and
    otherwise the new handler is stored. *)
Lemma add_unary_handler_open d proto handler w :
  _pers_conn_open (self w) = true →
  add_unary_handler d proto handler w
  = let queued :=
      with_pending_messages (pending_messages (self w) ++ [ADD_UNARY_HANDLER proto])
        (self w) in
    if truthy (unary_handlers (self w) !! proto)
    then ({| self := queued; futures := futures w; allocated := allocated w;
             trace := trace w |},
          Raise (ValueError (Handler_already_assigned proto)))
    else ({| self := with_unary_handlers (<[proto := handler]> (unary_handlers (self w)))
                       queued;
             futures := futures w; allocated := allocated w; trace := trace w |},
          Return tt).
Proof.
  intros Hopen. unfold add_unary_handler, bind at 1; cbn beta.
  rewrite ensure_established by done.
  unfold bind, put, update_self, get_self, raise, ret; cbn.
  by destruct (truthy _).
Qed.

(** A registration that succeeds leaves the channel established. *)
Lemma add_unary_handler_established d proto handler w w' :
  add_unary_handler d proto handler w = (w', Return tt) →
  _pers_conn_open (self w') = true.
Proof.
  destruct (_pers_conn_open (self w)) eqn:Hopen.
  - rewrite add_unary_handler_open by done. cbn zeta.
    destruct (truthy _); [done|]. by intros [= <-].
  - unfold add_unary_handler, bind at 1; cbn beta.
    by rewrite ensure_not_established.
Qed.

(** C4, as the code has it: what a registration does when [proto] already
    has a unary handler.  (1) On a client whose channel is not established
    it raises the error of the lock in [_ensure_persistent_conn], not the
    "already assigned" [ValueError], and changes nothing; by C2 this is the
    state of every client.  (2) On an established channel and for a stored
    handler that is truthy it raises the "already assigned" [ValueError]
    and leaves the registry as it was.  (3) On an established channel and
    for a stored handler that is falsy it returns and the new handler has
    replaced the stored one. *)
Theorem add_unary_handler_duplicate d proto (first second : TUnaryHandler) w :
  unary_handlers (self w) !! proto = Some first →
  (_pers_conn_open (self w) = false →
   add_unary_handler d proto second w = (w, Raise LockTypeError))
  ∧ (_pers_conn_open (self w) = true → truth_value first = true →
     ∃ w', add_unary_handler d proto second w
           = (w', Raise (ValueError (Handler_already_assigned proto)))
           ∧ unary_handlers (self w') = unary_handlers (self w)
           ∧ unary_handlers (self w') !! proto = Some first)
  ∧ (_pers_conn_open (self w) = true → truth_value first = false →
     ∃ w', add_unary_handler d proto second w = (w', Return tt)
           ∧ unary_handlers (self w') = <[proto := second]> (unary_handlers (self w))
           ∧ unary_handlers (self w') !! proto = Some second).
Proof.
  intros Hfirst. split; [|split].
  - intros Hopen. unfold add_unary_handler, bind at 1; cbn beta.
    by rewrite ensure_not_established.
  - intros Hopen Htrue. rewrite add_unary_handler_open by done.
    rewrite Hfirst. cbn. rewrite Htrue. eexists. split; [reflexivity|]. by cbn.
  - intros Hopen Hfalse. rewrite add_unary_handler_open by done.
    rewrite Hfirst. cbn. rewrite Hfalse. eexists. split; [reflexivity|]. cbn.
    split; [done|]. apply lookup_insert_eq.
Qed.

Lemma call_unary_handler_begin_cases d call_id peer proto data w :
  (_pers_conn_open (self w) = false
   ∧ call_unary_handler_begin d call_id peer proto data w = (w, Raise LockTypeError))
  ∨ (_pers_conn_open (self w) = true
     ∧ ∃ w1, call_unary_handler_begin d call_id peer proto data w
             = (w1, Return (allocated w))
       ∧ pending_calls (self w1) = <[call_id := allocated w]> (pending_calls (self w))
       ∧ futures w1 = <[allocated w := PENDING]> (futures w)
       ∧ pending_messages (self w1)
         = pending_messages (self w)
             ++ [CALL_UNARY {| req_peer := to_bytes peer; req_proto := proto;
                               req_data := data; req_callId := UUID_bytes call_id |}]).
Proof.
  destruct (_pers_conn_open (self w)) eqn:Hopen; [right|left]; (split; [done|]);
    unfold call_unary_handler_begin; cbn zeta; unfold bind at 1; cbn beta.
  - rewrite ensure_established by done.
    unfold bind, new_future, put, update_self, pending_call, get_self; cbn.
    rewrite lookup_insert_eq. eexists. split; [reflexivity|]. by cbn.
  - by rewrite ensure_not_established.
Qed.

(** The entry of the call is gone whenever the resumed call completes. *)
Lemma call_unary_handler_resume_removes call_id fut thrown w w' o :
  call_unary_handler_resume call_id fut thrown w = (w', Completed o) →
  pending_calls (self w') !! call_id = None.
Proof.
  unfold call_unary_handler_resume.
  destruct (match thrown with Some e => _ | None => _ end) as [tried|]; [|done].
  destruct (pending_calls (self w) !! call_id) as [popped|] eqn:Hpop.
  - cbn. destruct (future_done (futures w popped)) as [[e|res]|]; [| |done];
      intros [= <- _]; cbn; apply lookup_delete_eq.
  - by intros [= <- _].
Qed.

(** When the entry still holds the awaited future and that future is
    done, the call completes with what the future holds: the payload, the
    remote error, or the cancellation. *)
Lemma call_unary_handler_resume_done call_id fut w o :
  pending_calls (self w) !! call_id = Some fut →
  future_done (futures w fut) = Some o →
  ∃ w', call_unary_handler_resume call_id fut None w = (w', Completed o)
        ∧ pending_calls (self w') = delete call_id (pending_calls (self w)).
Proof.
  intros Hentry Hdone. unfold call_unary_handler_resume.
  rewrite Hdone, Hentry. cbn. rewrite Hdone.
  destruct o; eexists; (split; [reflexivity|done]).
Qed.

(** C5: however [call_unary_handler] completes, with the payload, with
    the remote error, or with the cancellation or any other exception
    thrown into the abandoned call, and whatever the other tasks did
    meanwhile, the pending-call table has no entry for the call identifier
    generated for the call. *)
Theorem call_unary_handler_removes_call_id
    d call_id peer proto data others thrown w w' o :
  pending_calls (self w) !! call_id = None →
  call_unary_handler d call_id peer proto data others thrown w = (w', Completed o) →
  pending_calls (self w') !! call_id = None.
Proof.
  intros Hfresh. unfold call_unary_handler.
  destruct (call_unary_handler_begin_cases d call_id peer proto data w)
    as [[_ ->]|[_ (w1 & -> & _)]].
  - by intros [= <- _].
  - apply call_unary_handler_resume_removes.
Qed.

End registry_and_correlator.

(** ** The read loop *)
Section read_loop.

Implicit Types (w : World) (resp : Response) (call_id : CallID).

(** An iteration that raises leaves the world as it found it. *)
Lemma read_iteration_raise_unchanged resp w w' e :
  read_iteration resp w = (w', Raise e) → w' = w.
Proof.
  unfold read_iteration.
  destruct (callUnaryResponse resp) as [cur|].
  - unfold bind at 1, lift; cbn beta. destruct (UUID (callId cur)) as [e'|call_id].
    { by intros [= <- _]. }
    unfold bind, get_self; cbn.
    destruct (pending_calls (self w) !! call_id) as [fut|], (outcome cur);
      unfold future_set_result, future_set_exception, future_set, emit;
      try done.
    + destruct (set_result _ _); [by intros [= <- _]|done].
    + destruct (set_exception _ _); [by intros [= <- _]|done].
  - by destruct (requestHandling resp).
Qed.

Lemma read_loop_cons_ok resp rest w w' :
  read_iteration resp w = (w', Return tt) →
  _read_from_persistent_conn (inr resp :: rest) w
  = _read_from_persistent_conn rest w'.
Proof. intros E. cbn. by rewrite E. Qed.

(** C1, as the code has it: when the read loop terminates, on a frame
    that cannot be read or on an exception of the iteration, the world it
    leaves is the world in which the terminating read happened.  The
    pending-call table and the futures are as they were at that moment, so
    no pending call is failed and a call that was pending stays pending. *)
Theorem read_loop_termination_fails_no_call reader w w' e :
  _read_from_persistent_conn reader w = (w', terminated e) →
  ∃ processed last rest,
    reader = processed ++ last :: rest
    ∧ _read_from_persistent_conn processed w = (w', awaiting_input)
    ∧ (last = inl e ∨ ∃ resp, last = inr resp ∧ read_iteration resp w' = (w', Raise e)).
Proof.
  revert w. induction reader as [|[e0|resp] reader IH]; intros w; cbn.
  - done.
  - intros [= <- <-]. exists [], (inl e0), reader. auto.
  - destruct (read_iteration resp w) as [w1 [e1|[]]] eqn:Hit.
    + intros [= <- <-]. apply read_iteration_raise_unchanged in Hit as Hw. subst w1.
      exists [], (inr resp), reader. split; [done|]. split; [done|]. eauto.
    + intros (processed & last & rest & -> & Hrun & Hlast)%IH.
      exists (inr resp :: processed), last, rest.
      split; [done|]. split; [|done]. cbn. by rewrite Hit.
Qed.

(** C6, as the code has it: for a unary-call result that carries a call
    identifier, (1) if the identifier has an entry whose future is still
    pending and the frame carries a payload, the future is resolved with
    the payload; (2) if the identifier has an entry whose future is still
    pending and the frame carries an error, the future is failed with a
    [P2PHandlerError] of the message; (3) if the identifier has no entry,
    the frame is logged and dropped; in each case nothing else changes and
    the loop goes on with the next frame. *)
Theorem read_loop_call_result resp cur call_id rest w :
  callUnaryResponse resp = Some cur →
  UUID (callId cur) = Return call_id →
  (∀ fut payload,
      pending_calls (self w) !! call_id = Some fut →
      futures w fut = PENDING →
      outcome cur = result payload →
      let w' := {| self := self w; futures := <[fut := FINISHED payload]> (futures w);
                   allocated := allocated w; trace := trace w |} in
      read_iteration resp w = (w', Return tt)
      ∧ _read_from_persistent_conn (inr resp :: rest) w
        = _read_from_persistent_conn rest w')
  ∧ (∀ fut msg,
      pending_calls (self w) !! call_id = Some fut →
      futures w fut = PENDING →
      outcome cur = error msg →
      let w' := {| self := self w;
                   futures := <[fut := FAILED (P2PHandlerError msg)]> (futures w);
                   allocated := allocated w; trace := trace w |} in
      read_iteration resp w = (w', Return tt)
      ∧ _read_from_persistent_conn (inr resp :: rest) w
        = _read_from_persistent_conn rest w')
  ∧ (pending_calls (self w) !! call_id = None →
      let w' := {| self := self w; futures := futures w; allocated := allocated w;
                   trace := trace w ++ [logged "received unexpected unary call"] |} in
      read_iteration resp w = (w', Return tt)
      ∧ _read_from_persistent_conn (inr resp :: rest) w
        = _read_from_persistent_conn rest w').
Proof.
  intros Hcur Hid.
  assert (Hstep : ∀ w', read_iteration resp w = (w', Return tt) →
            read_iteration resp w = (w', Return tt)
            ∧ _read_from_persistent_conn (inr resp :: rest) w
              = _read_from_persistent_conn rest w').
  { intros w' E. split; [done|]. by apply read_loop_cons_ok. }
  split; [|split].
  - intros fut payload Hentry Hpending Hres w'. apply Hstep.
    unfold read_iteration. rewrite Hcur. unfold bind at 1, lift; cbn beta.
    rewrite Hid. unfold bind, get_self; cbn. rewrite Hentry, Hres.
    unfold future_set_result. by rewrite Hpending.
  - intros fut msg Hentry Hpending Herr w'. apply Hstep.
    unfold read_iteration. rewrite Hcur. unfold bind at 1, lift; cbn beta.
    rewrite Hid. unfold bind, get_self; cbn. rewrite Hentry, Herr.
    unfold future_set_exception. by rewrite Hpending.
  - intros Hentry w'. apply Hstep.
    unfold read_iteration. rewrite Hcur. unfold bind at 1, lift; cbn beta.
    rewrite Hid. unfold bind, get_self; cbn. by rewrite Hentry.
Qed.

End read_loop.

(** ** Inbound calls and inbound streams *)
Section inbound.

Implicit Types (w : World) (d : Daemon) (request : CallUnaryRequest).
Implicit Types (handler : TUnaryHandler).

Lemma handle_persistent_request_eq request others handler w :
  unary_handlers (self w) !! req_proto request = Some handler →
  let frame o := SEND_RESPONSE_TO_REMOTE {| callId := req_callId request; outcome := o |} in
  _handle_persistent_request request others w
  = match handler (req_data request) {| to_bytes := req_peer request |} with
    | inr payload => (fst (put (frame (result payload)) (others w)), Return tt)
    | inl e =>
        if is_Exception e
        then (fst (put (frame (error (repr e))) (others w)), Return tt)
        else (others w, Raise (UserRaised e))
    end.

Proof.
  intros Hreg frame. subst frame.
  unfold _handle_persistent_request, bind at 1, get_self; cbn beta iota.
  rewrite Hreg. unfold bind, await_others, ret, raise, put, update_self. cbn.
  destruct (handler _ _) as [e|payload]; [destruct (is_Exception e)|]; done.
Qed.

(** C3, as the code has it: for an inbound call whose protocol has a
    registered handler, when the handler returns, exactly one frame is
    appended to the queue, a success frame with the call identifier of the
    request and the returned payload; when the handler raises an instance
    of [Exception], exactly one frame is appended, an error frame with the
    call identifier and the [repr] of the exception; when it raises
    anything else the exception propagates and the queue is left alone. *)
Theorem handle_persistent_request_response request others handler w :
  unary_handlers (self w) !! req_proto request = Some handler →
  let frame o := SEND_RESPONSE_TO_REMOTE {| callId := req_callId request; outcome := o |} in
  let after := _handle_persistent_request request others w in
  match handler (req_data request) {| to_bytes := req_peer request |} with
  | inr payload =>
      snd after = Return tt
      ∧ pending_messages (self (fst after))
        = pending_messages (self (others w)) ++ [frame (result payload)]
  | inl e =>
      if is_Exception e then
        snd after = Return tt
        ∧ pending_messages (self (fst after))
          = pending_messages (self (others w)) ++ [frame (error (repr e))]
      else
        after = (others w, Raise (UserRaised e))
  end.
Proof.
  intros Hreg frame after. subst after.
  rewrite (handle_persistent_request_eq _ _ _ _ Hreg). fold frame.
  destruct (handler _ _) as [e|payload]; [destruct (is_Exception e)|]; done.
Qed.

(** C8: for an accepted connection whose header frame was read, if the
    protocol of the header has no stream handler the acceptor closes the
    writer and raises [DispatchFailure] of the [KeyError] naming the
    protocol; if it has one, the acceptor calls it with the decoded stream
    metadata, the reader and the writer, and performs no effect of its
    own, so it does not close the connection. *)
Theorem stream_acceptor_dispatch reader writer pb w :
  let stream_info := StreamInfo_from_protobuf pb in
  match handlers (self w) !! proto stream_info with
  | None =>
      _handler reader writer (Return pb) w
      = ({| self := self w; futures := futures w; allocated := allocated w;
            trace := trace w ++ [closed writer] |},
         Raise (DispatchFailure (KeyError (proto stream_info))))
  | Some handler =>
      _handler reader writer (Return pb) w
      = ({| self := self w; futures := futures w; allocated := allocated w;
            trace := trace w ++ fst (handler stream_info reader writer) |},
         snd (handler stream_info reader writer))
  end.
Proof.
  intros stream_info. unfold _handler, bind, lift, get_self, emit, raise.
  cbn beta iota zeta. fold stream_info.
  destruct (handlers (self w) !! proto stream_info) as [handler|]; [|done].
  by destruct (handler stream_info reader writer) as [effects [e|[]]].
Qed.

Lemma open_connection_self d dc w w' o :
  open_connection d dc w = (w', o) → self w' = self w.
Proof.
  unfold open_connection, bind, lift, emit, ret.
  destruct (open_connection_endpoint dc) as [e|endpoint]; [by intros [= <- _]|].
  destruct (dial d endpoint) as [e|rw]; by intros [= <- _].
Qed.

Lemma open_connection_raise_unchanged d dc w w' e :
  open_connection d dc w = (w', Raise e) → w' = w.
Proof.
  unfold open_connection, bind, lift, emit, ret.
  destruct (open_connection_endpoint dc) as [e'|endpoint]; [by intros [= <- _]|].
  destruct (dial d endpoint) as [e'|rw]; [by intros [= <- _]|done].
Qed.

(** C10: [stream_handler] puts the callback into the registry only when
    the response of the daemon has passed the check of [raise_if_failed];
    whenever it raises, and in particular whenever the check fails on the
    response of the daemon, the registry of stream handlers is as it was
    and the exception of the check is the one raised. *)
Theorem stream_handler_registers_after_check d proto handler_cb w :
  let req := STREAM_HANDLER (listen_maddr (self w)) [proto] in
  let after := stream_handler d proto handler_cb w in
  match snd after with
  | inr _ =>
      handlers (self (fst after)) = <[proto := handler_cb]> (handlers (self w))
      ∧ ∃ resp, answer d req = Return resp ∧ raise_if_failed resp = Return tt
  | inl _ => handlers (self (fst after)) = handlers (self w)
  end
  ∧ ∀ resp e, answer d req = Return resp → raise_if_failed resp = Raise e →
      (snd after = Raise e
       ∨ ∃ e', open_connection d (daemon_connector (self w)) w = (w, Raise e')
               ∧ snd after = Raise e')
      ∧ handlers (self (fst after)) = handlers (self w).
Proof.
  intros req after.
  assert (E : after =
    match open_connection d (daemon_connector (self w)) w with
    | (w1, inl e) => (w1, Raise e)
    | (w1, inr rw) =>
        (write_pbmsg (snd rw) req ;;;
         resp <- lift (answer d req) ;;
         emit [closed (snd rw)] ;;;
         lift (raise_if_failed resp) ;;;
         update_self (λ c, with_handlers (<[proto := handler_cb]> (handlers c)) c)) w1
    end) by reflexivity.
  rewrite E. clear E after.
  destruct (open_connection d (daemon_connector (self w)) w) as [w1 [e|rw]] eqn:Hopen.
  { apply open_connection_raise_unchanged in Hopen as Hw. subst w1.
    cbn. split; [done|]. intros resp e' _ _. split; [|done]. right. eauto. }
  apply open_connection_self in Hopen as Hself.
  unfold bind, write_pbmsg, emit, lift, update_self; cbn.
  destruct (answer d req) as [e|resp]; cbn; [by rewrite Hself|].
  destruct (raise_if_failed resp) as [e|[]] eqn:Hcheck; cbn; rewrite Hself.
  - split; [done|]. intros ? e' [= <-] Hfail. rewrite Hcheck in Hfail.
    injection Hfail as <-. auto.
  - split; [eauto|]. intros ? e' [= <-] Hfail. by rewrite Hcheck in Hfail.
Qed.

(** With the status check as the spec has it, a failure status of the
    daemon is such a failed check. *)
Lemma raise_if_failed_error resp :
  type resp = ERROR → raise_if_failed resp = Raise (ControlFailure (error_msg resp)).
Proof. unfold raise_if_failed. by intros ->. Qed.

End inbound.

(** ** Call identifiers on the wire *)
Section call_identifiers.

Lemma int_from_bytes_snoc (b : bytes) (x : Byte.byte) :
  int_from_bytes (b ++ [x]) = (int_from_bytes b * 256 + Byte.to_N x)%N.
Proof. unfold int_from_bytes. by rewrite fold_left_app. Qed.

Lemma length_int_to_bytes (len : nat) (n : N) : length (int_to_bytes len n) = len.
Proof.
  revert n. induction len as [|len IH]; intros n; cbn; [done|].
  rewrite length_app, IH. cbn. lia.
Qed.

Lemma int_from_to_bytes (len : nat) (n : N) :
  int_from_bytes (int_to_bytes len n) = (n mod 256 ^ N.of_nat len)%N.
Proof.
  revert n. induction len as [|len IH]; intros n.
  - cbn. by rewrite N.mod_1_r.
  - cbn [int_to_bytes]. rewrite int_from_bytes_snoc, IH.
    assert (Hlt : (n mod 256 < 256)%N) by (apply N.mod_lt; lia).
    destruct (Byte.of_N (n mod 256)) as [x|] eqn:Hx.
    + apply Byte.to_of_N in Hx. change (default Byte.x00 (Some x)) with x. rewrite Hx.
      rewrite Nat2N.inj_succ, N.pow_succ_r'.
      rewrite N.Div0.mod_mul_r. lia.
    + apply Byte.of_N_None_iff in Hx. lia.
Qed.

(** The bytes of a call identifier decode back to it. *)
Lemma UUID_of_UUID_bytes (call_id : CallID) :
  (call_id < 2 ^ 128)%N → UUID (UUID_bytes call_id) = Return call_id.
Proof.
  intros Hlt. unfold UUID, UUID_bytes.
  rewrite length_int_to_bytes. case_decide; [|done].
  rewrite int_from_to_bytes. f_equal. by apply N.mod_small.
Qed.

End call_identifiers.

(** ** Unary calls from request to response *)
Section unary_calls.

Implicit Types (w : World) (d : Daemon) (call_id : CallID) (resp : Response).

(** The world in which a caller on an established channel is suspended. *)
Lemma call_unary_handler_begin_established d call_id peer proto data w :
  _pers_conn_open (self w) = true →
  ∃ w1, call_unary_handler_begin d call_id peer proto data w = (w1, Return (allocated w))
    ∧ pending_calls (self w1) = <[call_id := allocated w]> (pending_calls (self w))
    ∧ futures w1 = <[allocated w := PENDING]> (futures w)
    ∧ allocated w1 = S (allocated w)
    ∧ pending_messages (self w1)
      = pending_messages (self w)
          ++ [CALL_UNARY {| req_peer := to_bytes peer; req_proto := proto;
                            req_data := data; req_callId := UUID_bytes call_id |}]
    ∧ _pers_conn_open (self w1) = true
    ∧ unary_handlers (self w1) = unary_handlers (self w)
    ∧ handlers (self w1) = handlers (self w)
    ∧ trace w1 = trace w.
Proof.
  intros Hopen.
  unfold call_unary_handler_begin; cbn zeta; unfold bind at 1; cbn beta.
  rewrite ensure_established by done.
  unfold bind, new_future, put, update_self, pending_call, get_self; cbn.
  rewrite lookup_insert_eq. eexists. split; [reflexivity|]. by cbn.
Qed.

(** A call result for an entry whose future is pending completes the
    future with what the frame carries. *)
Lemma read_iteration_pending_entry resp cur call_id fut w :
  callUnaryResponse resp = Some cur →
  UUID (callId cur) = Return call_id →
  pending_calls (self w) !! call_id = Some fut →
  futures w fut = PENDING →
  read_iteration resp w
  = match outcome cur with
    | result payload =>
        ({| self := self w; futures := <[fut := FINISHED payload]> (futures w);
            allocated := allocated w; trace := trace w |}, Return tt)
    | error msg =>
        ({| self := self w; futures := <[fut := FAILED (P2PHandlerError msg)]> (futures w);
            allocated := allocated w; trace := trace w |}, Return tt)
    | unset =>
        ({| self := self w; futures := futures w; allocated := allocated w;
            trace := trace w ++ [logged "received unexpected unary call"] |}, Return tt)
    end.
Proof.
  intros Hcur Hid Hentry Hpending.
  unfold read_iteration. rewrite Hcur. unfold bind at 1, lift; cbn beta.
  rewrite Hid. unfold bind, get_self; cbn. rewrite Hentry.
  destruct (outcome cur); [| |done].
  - unfold future_set_result. by rewrite Hpending.
  - unfold future_set_exception. by rewrite Hpending.
Qed.

(** X1: a call on an established channel whose response frame arrives
    while the caller is suspended gets what that frame carries: the
    payload is returned, or the error is raised as a [P2PHandlerError];
    afterwards the pending-call table is what it was before the call. *)
Theorem call_unary_handler_receives_response d call_id peer proto data w :
  _pers_conn_open (self w) = true →
  pending_calls (self w) !! call_id = None →
  (call_id < 2 ^ 128)%N →
  (∀ payload,
      let arrives w1 := fst (read_iteration (result_response call_id payload) w1) in
      let after := call_unary_handler d call_id peer proto data arrives None w in
      snd after = Completed (Return payload)
      ∧ pending_calls (self (fst after)) = pending_calls (self w))
  ∧ (∀ msg,
      let arrives w1 := fst (read_iteration (error_response call_id msg) w1) in
      let after := call_unary_handler d call_id peer proto data arrives None w in
      snd after = Completed (Raise (P2PHandlerError msg))
      ∧ pending_calls (self (fst after)) = pending_calls (self w)).
Proof.
  intros Hopen Hfresh Hid.
  destruct (call_unary_handler_begin_established d call_id peer proto data w Hopen)
    as (w1 & Hbegin & Hcalls & Hfuts & _).
  assert (Hentry : pending_calls (self w1) !! call_id = Some (allocated w))
    by (rewrite Hcalls; apply lookup_insert_eq).
  assert (Hpending : futures w1 (allocated w) = PENDING)
    by (rewrite Hfuts; apply fn_lookup_insert).
  split.
  - intros payload arrives after. subst after arrives.
    unfold call_unary_handler. rewrite Hbegin. cbn beta iota.
    rewrite (read_iteration_pending_entry (result_response call_id payload)
               {| callId := UUID_bytes call_id; outcome := result payload |}
               call_id (allocated w) w1 eq_refl
               (UUID_of_UUID_bytes _ Hid) Hentry Hpending).
    unfold call_unary_handler_resume; cbn.
    rewrite fn_lookup_insert; cbn. rewrite Hentry. cbn.
    rewrite fn_lookup_insert; cbn. split; [done|].
    rewrite Hcalls. by apply delete_insert_id.
  - intros msg arrives after. subst after arrives.
    unfold call_unary_handler. rewrite Hbegin. cbn beta iota.
    rewrite (read_iteration_pending_entry (error_response call_id msg)
               {| callId := UUID_bytes call_id; outcome := error msg |}
               call_id (allocated w) w1 eq_refl
               (UUID_of_UUID_bytes _ Hid) Hentry Hpending).
    unfold call_unary_handler_resume; cbn.
    rewrite fn_lookup_insert; cbn. rewrite Hentry. cbn.
    rewrite fn_lookup_insert; cbn. split; [done|].
    rewrite Hcalls. by apply delete_insert_id.
Qed.

End unary_calls.

Section unary_calls_more.

Implicit Types (w : World) (d : Daemon) (call_id : CallID) (resp : Response).
Implicit Types (handler : TUnaryHandler).

(** Resuming a caller whose future is done and whose entry is in place. *)
Lemma call_unary_handler_resume_done_eq call_id fut w o :
  pending_calls (self w) !! call_id = Some fut →
  future_done (futures w fut) = Some o →
  call_unary_handler_resume call_id fut None w
  = ({| self := with_pending_calls (delete call_id (pending_calls (self w))) (self w);
        futures := futures w; allocated := allocated w; trace := trace w |},
     Completed o).
Proof.
  intros Hentry Hdone. unfold call_unary_handler_resume.
  rewrite Hdone, Hentry. cbn. rewrite Hdone. by destruct o.
Qed.

(** A caller whose future is still pending stays suspended. *)
Lemma call_unary_handler_resume_pending call_id fut w :
  futures w fut = PENDING →
  snd (call_unary_handler_resume call_id fut None w) = Suspended fut.
Proof. intros Hpending. unfold call_unary_handler_resume. by rewrite Hpending. Qed.

(** X2: the request that [call_unary_handler] enqueues is the last of the
    queue, carries the peer, the protocol and the data of the call, and
    its [callId] decodes to the key under which the pending future of the
    call is stored. *)
Theorem call_unary_handler_request_matches_entry d call_id peer proto data w :
  _pers_conn_open (self w) = true →
  (call_id < 2 ^ 128)%N →
  ∃ w1 fut req,
    call_unary_handler_begin d call_id peer proto data w = (w1, Return fut)
    ∧ pending_messages (self w1) = pending_messages (self w) ++ [CALL_UNARY req]
    ∧ req_peer req = to_bytes peer ∧ req_proto req = proto ∧ req_data req = data
    ∧ UUID (req_callId req) = Return call_id
    ∧ pending_calls (self w1) !! call_id = Some fut
    ∧ futures w1 fut = PENDING.
Proof.
  intros Hopen Hid.
  destruct (call_unary_handler_begin_established d call_id peer proto data w Hopen)
    as (w1 & Hbegin & Hcalls & Hfuts & _ & Hqueue & _).
  exists w1, (allocated w). eexists. split; [done|]. split; [done|]. cbn.
  repeat split.
  - by apply UUID_of_UUID_bytes.
  - rewrite Hcalls. apply lookup_insert_eq.
  - rewrite Hfuts. apply fn_lookup_insert.
Qed.

(** X3: of two calls suspended at the same time, the response for one
    completes that one with its payload and leaves the other suspended,
    with its entry and its pending future in place. *)
Theorem concurrent_calls_keep_their_results
    d id1 id2 peer1 proto1 data1 peer2 proto2 data2 payload w :
  _pers_conn_open (self w) = true →
  id1 ≠ id2 →
  (id2 < 2 ^ 128)%N →
  let first := call_unary_handler_begin d id1 peer1 proto1 data1 w in
  let second := call_unary_handler_begin d id2 peer2 proto2 data2 (fst first) in
  let arrived := fst (read_iteration (result_response id2 payload) (fst second)) in
  ∃ fut1 fut2,
    snd first = Return fut1 ∧ snd second = Return fut2
    ∧ snd (call_unary_handler_resume id2 fut2 None arrived) = Completed (Return payload)
    ∧ snd (call_unary_handler_resume id1 fut1 None
             (fst (call_unary_handler_resume id2 fut2 None arrived)))
      = Suspended fut1
    ∧ pending_calls (self (fst (call_unary_handler_resume id2 fut2 None arrived))) !! id1
      = Some fut1.
Proof.
  intros Hopen Hne Hid first second arrived.
  destruct (call_unary_handler_begin_established d id1 peer1 proto1 data1 w Hopen)
    as (w1 & Hbegin1 & Hcalls1 & Hfuts1 & Halloc1 & _ & Hopen1 & _).
  destruct (call_unary_handler_begin_established d id2 peer2 proto2 data2 w1 Hopen1)
    as (w2 & Hbegin2 & Hcalls2 & Hfuts2 & _).
  subst arrived second first. rewrite Hbegin1. cbn [fst snd]. rewrite Hbegin2.
  cbn [fst snd]. rewrite Halloc1 in *.
  assert (Hentry2 : pending_calls (self w2) !! id2 = Some (S (allocated w)))
    by (rewrite Hcalls2; apply lookup_insert_eq).
  assert (Hentry1 : pending_calls (self w2) !! id1 = Some (allocated w)).
  { rewrite Hcalls2, lookup_insert_ne, Hcalls1 by done. apply lookup_insert_eq. }
  assert (Hpending2 : futures w2 (S (allocated w)) = PENDING)
    by (rewrite Hfuts2; apply fn_lookup_insert).
  assert (Hpending1 : futures w2 (allocated w) = PENDING).
  { rewrite Hfuts2, fn_lookup_insert_ne, Hfuts1 by lia. apply fn_lookup_insert. }
  rewrite (read_iteration_pending_entry (result_response id2 payload)
             {| callId := UUID_bytes id2; outcome := result payload |}
             id2 (S (allocated w)) w2 eq_refl
             (UUID_of_UUID_bytes _ Hid) Hentry2 Hpending2).
  exists (allocated w), (S (allocated w)). split; [done|]. split; [done|].
  cbn [outcome fst].
  set (w3 := {| self := self w2;
                futures := <[S (allocated w) := FINISHED payload]> (futures w2);
                allocated := allocated w2; trace := trace w2 |}).
  assert (Hdone : future_done (futures w3 (S (allocated w))) = Some (Return payload)).
  { cbn. by rewrite fn_lookup_insert. }
  rewrite (call_unary_handler_resume_done_eq id2 (S (allocated w)) w3 _ Hentry2 Hdone).
  cbn [fst snd]. split; [done|]. split.
  - apply call_unary_handler_resume_pending. cbn.
    by rewrite fn_lookup_insert_ne, Hpending1 by lia.
  - cbn. by rewrite lookup_delete_ne.
Qed.

(** X4: registering a handler for a protocol that has none, on an
    established channel, succeeds, stores the handler under the protocol,
    leaves the other unary handlers and the stream handlers alone and
    enqueues exactly one [ADD_UNARY_HANDLER] request; an inbound call for
    the protocol is then answered by that handler, and its response frame
    follows the registration request in the queue. *)
Theorem add_unary_handler_then_inbound_call d proto handler request payload w :
  _pers_conn_open (self w) = true →
  unary_handlers (self w) !! proto = None →
  req_proto request = proto →
  handler (req_data request) {| to_bytes := req_peer request |} = inr payload →
  let registered := add_unary_handler d proto handler w in
  let answered := _handle_persistent_request request id (fst registered) in
  snd registered = Return tt
  ∧ unary_handlers (self (fst registered)) = <[proto := handler]> (unary_handlers (self w))
  ∧ handlers (self (fst registered)) = handlers (self w)
  ∧ snd answered = Return tt
  ∧ pending_messages (self (fst answered))
    = pending_messages (self w)
      ++ [ADD_UNARY_HANDLER proto;
          SEND_RESPONSE_TO_REMOTE
            {| callId := req_callId request; outcome := result payload |}].
Proof.
  intros Hopen Hnone Hproto Hret registered answered.
  assert (Hreg : registered
    = ({| self := with_unary_handlers (<[proto := handler]> (unary_handlers (self w)))
                    (with_pending_messages
                       (pending_messages (self w) ++ [ADD_UNARY_HANDLER proto]) (self w));
          futures := futures w; allocated := allocated w; trace := trace w |},
       Return tt)).
  { subst registered. rewrite add_unary_handler_open by done. by rewrite Hnone. }
  subst answered. rewrite Hreg. cbn [fst snd].
  split; [done|]. split; [done|]. split; [done|].
  rewrite (handle_persistent_request_eq request id handler).
  - cbn zeta. rewrite Hret. cbn. split; [done|]. by rewrite <- app_assoc.
  - cbn. rewrite Hproto. apply lookup_insert_eq.
Qed.

(** X5: on an established channel [add_unary_handler] enqueues its
    [ADD_UNARY_HANDLER] request before it looks at the registry, so the
    request is at the end of the queue whether the call then raises or
    returns; it raises, the "already assigned" [ValueError], exactly when
    the protocol has a stored handler that is truthy, and then the request
    is the only change; otherwise it returns and has stored the handler
    under the protocol. *)
Theorem add_unary_handler_duplicate_still_enqueues d proto handler w :
  _pers_conn_open (self w) = true →
  let after := add_unary_handler d proto handler w in
  let raises := ∃ first, unary_handlers (self w) !! proto = Some first
                         ∧ truth_value first = true in
  pending_messages (self (fst after))
  = pending_messages (self w) ++ [ADD_UNARY_HANDLER proto]
  ∧ (snd after = Raise (ValueError (Handler_already_assigned proto)) ↔ raises)
  ∧ (snd after = Return tt ↔ ¬ raises)
  ∧ (raises →
     fst after
     = {| self := with_pending_messages
                    (pending_messages (self w) ++ [ADD_UNARY_HANDLER proto]) (self w);
          futures := futures w; allocated := allocated w; trace := trace w |})
  ∧ (¬ raises →
     unary_handlers (self (fst after)) = <[proto := handler]> (unary_handlers (self w))).
Proof.
  intros Hopen after raises. subst after.
  rewrite add_unary_handler_open by done. cbn zeta.
  assert (Hraises : truthy (unary_handlers (self w) !! proto) = true ↔ raises).
  { subst raises. destruct (unary_handlers (self w) !! proto) as [first|]; cbn.
    - split; [eauto|]. by intros (? & [= <-] & ?).
    - split; [done|]. by intros (? & [=] & _). }
  destruct (truthy _); cbn.
  - assert raises by by apply Hraises. done.
  - assert (¬ raises) by (intros ?%Hraises; done). done.
Qed.

(** X6: on a client as constructed, [add_unary_handler] and
    [call_unary_handler] raise at [_ensure_persistent_conn] and leave the
    world untouched: no request is enqueued, no handler is registered and
    no future is created. *)
Theorem unary_api_fails_on_new_client
    d connector maddr proto handler call_id peer data others thrown :
  let w0 := World_init (ControlClient_init connector maddr) in
  add_unary_handler d proto handler w0 = (w0, Raise LockTypeError)
  ∧ call_unary_handler d call_id peer proto data others thrown w0
    = (w0, Completed (Raise LockTypeError)).
Proof.
  intros w0. split.
  - unfold add_unary_handler, bind at 1; cbn beta.
    by rewrite ensure_not_established.
  - unfold call_unary_handler, call_unary_handler_begin; cbn zeta.
    unfold bind at 1; cbn beta. by rewrite ensure_not_established.
Qed.

End unary_calls_more.

(** ** The loops of the persistent channel *)
Section loops.

Implicit Types (w : World) (resp : Response) (reader : list (Outcome Response)).

(** X7: a frame whose call identifier is not 16 bytes long terminates the
    read loop with the [ValueError] of [uuid.UUID], whatever the
    pending-call table holds; the world is untouched and the frames after
    it are not processed. *)
Theorem read_loop_malformed_call_id resp cur rest w :
  callUnaryResponse resp = Some cur →
  length (callId cur) ≠ 16 →
  _read_from_persistent_conn (Return resp :: rest) w
  = (w, terminated (ValueError bytes_is_not_a_16_char_string)).
Proof.
  intros Hcur Hlen. cbn. unfold read_iteration. rewrite Hcur.
  unfold bind at 1, lift, UUID; cbn beta. by case_decide.
Qed.

(** X8: an inbound call is handed to a task of its own and the read loop
    goes on with the next frame, also when the protocol of the call has no
    handler; the task of such a call fails its assertion and enqueues no
    response. *)
Theorem read_loop_inbound_call_unregistered resp request rest others w :
  callUnaryResponse resp = None →
  requestHandling resp = Some request →
  _read_from_persistent_conn (Return resp :: rest) w
  = _read_from_persistent_conn rest
      {| self := self w; futures := futures w; allocated := allocated w;
         trace := trace w ++ [created_task (request_task request)] |}
  ∧ ∀ w', unary_handlers (self w') !! req_proto request = None →
          _handle_persistent_request request others w' = (w', Raise AssertionError).
Proof.
  intros Hcur Hreq. split.
  - cbn. unfold read_iteration. by rewrite Hcur, Hreq.
  - intros w' Hnone. unfold _handle_persistent_request, bind at 1, get_self.
    cbn beta iota. by rewrite Hnone.
Qed.

Lemma read_loop_frame_refl w : read_loop_frame w w.
Proof.
  repeat split; try done. exists []. by rewrite app_nil_r.
Qed.

Lemma read_loop_frame_trans w w1 w2 :
  read_loop_frame w w1 → read_loop_frame w1 w2 → read_loop_frame w w2.
Proof.
  intros (Hs1 & Ha1 & Hd1 & Ht1 & ev1 & Htr1 & Hev1) (Hs2 & Ha2 & Hd2 & Ht2 & ev2 & Htr2 & Hev2).
  split; [congruence|]. split; [congruence|]. split; [|split].
  - intros fut Hdone. rewrite Hd2, Hd1; [done..|]. by rewrite Hd1.
  - intros fut Hnot. rewrite Ht2, Ht1; [done..|]. by rewrite Hs1.
  - exists (ev1 ++ ev2). split; [by rewrite Htr2, Htr1, app_assoc|]. by apply Forall_app.
Qed.

Lemma future_set_pending_frame fut (o : Outcome Future) call_id w :
  pending_calls (self w) !! call_id = Some fut →
  (futures w fut ≠ PENDING → ∃ e, o = Raise e) →
  read_loop_frame w (fst (future_set fut o w)).
Proof.
  intros Hentry Hdone. unfold future_set. destruct o as [e|f]; cbn.
  { apply read_loop_frame_refl. }
  split; [done|]. split; [done|]. split; [|split]; cbn.
  - intros fut' Hd. destruct (decide (fut' = fut)) as [->|Hne].
    + by destruct (Hdone Hd).
    + by rewrite fn_lookup_insert_ne.
  - intros fut' Hnot. destruct (decide (fut' = fut)) as [->|Hne].
    + by destruct (Hnot call_id).
    + by rewrite fn_lookup_insert_ne.
  - exists []. by rewrite app_nil_r.
Qed.

Lemma read_iteration_frame resp w : read_loop_frame w (fst (read_iteration resp w)).
Proof.
  unfold read_iteration.
  destruct (callUnaryResponse resp) as [cur|].
  - unfold bind at 1, lift; cbn beta.
    destruct (UUID (callId cur)) as [e|call_id]; [apply read_loop_frame_refl|].
    unfold bind, get_self; cbn beta iota.
    destruct (pending_calls (self w) !! call_id) as [fut|] eqn:Hentry.
    + destruct (outcome cur).
      * apply (future_set_pending_frame _ _ call_id); [done|].
        intros Hdone. unfold set_result. destruct (futures w fut); [done|eauto..].
      * apply (future_set_pending_frame _ _ call_id); [done|].
        intros Hdone. unfold set_exception. destruct (futures w fut); [done|eauto..].
      * cbn. repeat split; try done. eexists. split; [done|]. by repeat constructor.
    + destruct (outcome cur); cbn; repeat split; try done;
        eexists; (split; [done|]); by repeat constructor.
  - destruct (requestHandling resp) as [request|]; cbn.
    + repeat split; try done. eexists. split; [done|]. by repeat constructor.
    + apply read_loop_frame_refl.
Qed.

(** X9: whatever frames it is given, the read loop changes nothing of
    the client (the pending-call table, the registries, the queue and the
    channel flag are as before: it removes no entry); it creates no
    future, changes no future that is already done and no future that the
    pending-call table does not refer to, so all it does to the state is
    complete pending futures of the table; and it writes on no connection
    and closes none: its only effects are log lines and the tasks of
    inbound calls. *)
Theorem read_loop_only_completes_pending_calls reader w :
  let w' := fst (_read_from_persistent_conn reader w) in
  self w' = self w
  ∧ allocated w' = allocated w
  ∧ (∀ fut, futures w fut ≠ PENDING → futures w' fut = futures w fut)
  ∧ (∀ fut, (∀ call_id, pending_calls (self w) !! call_id ≠ Some fut) →
            futures w' fut = futures w fut)
  ∧ ∃ events, trace w' = trace w ++ events ∧ Forall read_loop_event events.
Proof.
  cbn zeta. change (read_loop_frame w (fst (_read_from_persistent_conn reader w))).
  revert w. induction reader as [|[e|resp] reader IH]; intros w; cbn;
    [apply read_loop_frame_refl..|].
  pose proof (read_iteration_frame resp w) as Hstep.
  destruct (read_iteration resp w) as [w1 [e|[]]]; cbn in *; [done|].
  eapply read_loop_frame_trans; [done|apply IH].
Qed.
(** The write loop on a queue: the first [n] messages are written in
    order and taken off the queue. *)
Lemma write_loop_take (writer : StreamWriter) (n : nat) w :
  let w' := _write_to_persistent_conn writer n w in
  trace w' = trace w ++ (wrote writer <$> take n (pending_messages (self w)))
  ∧ pending_messages (self w') = drop n (pending_messages (self w))
  ∧ futures w' = futures w
  ∧ pending_calls (self w') = pending_calls (self w)
  ∧ unary_handlers (self w') = unary_handlers (self w)
  ∧ handlers (self w') = handlers (self w).
Proof.
  revert w. induction n as [|n IH]; intros w; cbn.
  - rewrite take_0, drop_0, app_nil_r. done.
  - unfold write_iteration.
    destruct (pending_messages (self w)) as [|msg rest] eqn:Hq; cbn.
    + rewrite Hq, app_nil_r. done.
    + destruct (IH (fst ((update_self (with_pending_messages rest) ;;;
                          write_pbmsg writer msg) w)))
        as (Htrace & Hqueue & Hfuts & Hcalls & Hunary & Hhandlers).
      cbn in *. rewrite Htrace, Hqueue, Hfuts, Hcalls, Hunary, Hhandlers.
      by rewrite <- app_assoc.
Qed.

(** X10: given enough iterations, the write loop writes every queued
    message once, in the order of the queue, on its writer, and leaves the
    queue empty; it touches neither the futures nor the registries nor the
    pending-call table. *)
Theorem write_loop_drains_in_order (writer : StreamWriter) (n : nat) w :
  (length (pending_messages (self w)) ≤ n)%nat →
  let w' := _write_to_persistent_conn writer n w in
  trace w' = trace w ++ (wrote writer <$> pending_messages (self w))
  ∧ pending_messages (self w') = []
  ∧ futures w' = futures w
  ∧ pending_calls (self w') = pending_calls (self w)
  ∧ unary_handlers (self w') = unary_handlers (self w)
  ∧ handlers (self w') = handlers (self w).
Proof.
  intros Hn w'. destruct (write_loop_take writer n w) as (Htrace & Hqueue & Hrest).
  subst w'. rewrite Htrace, Hqueue, take_ge, drop_ge by done. done.
Qed.

(** X11: messages are written in the order they were put: two messages
    put one after the other on a queue are both written, after the
    messages that were queued before them and in the order of the two
    [put]s. *)
Theorem put_put_write_order (writer : StreamWriter) msg1 msg2 (n : nat) w :
  (length (pending_messages (self w)) + 2 ≤ n)%nat →
  let queued := fst ((put msg1 ;;; put msg2) w) in
  trace (_write_to_persistent_conn writer n queued)
  = trace w ++ (wrote writer <$> pending_messages (self w))
      ++ [wrote writer msg1; wrote writer msg2].
Proof.
  intros Hn queued.
  assert (Hq : pending_messages (self queued) = pending_messages (self w) ++ [msg1; msg2]).
  { subst queued. unfold bind, put, update_self; cbn. by rewrite <- app_assoc. }
  destruct (write_loop_take writer n queued) as (Htrace & _).
  rewrite Htrace, Hq, take_ge by (rewrite length_app; cbn; lia).
  by rewrite fmap_app.
Qed.

End loops.

(** ** Stream handlers, connector and listener *)
Section streams_and_endpoints.

Implicit Types (w : World) (d : Daemon) (maddr : Multiaddr).

(** A registration of a stream handler that returns has stored the
    callback under the protocol. *)
Lemma stream_handler_returns_registered d proto handler_cb w :
  snd (stream_handler d proto handler_cb w) = Return tt →
  handlers (self (fst (stream_handler d proto handler_cb w)))
  = <[proto := handler_cb]> (handlers (self w)).
Proof.
  set (req := STREAM_HANDLER (listen_maddr (self w)) [proto]).
  assert (E : stream_handler d proto handler_cb w =
    match open_connection d (daemon_connector (self w)) w with
    | (w1, inl e) => (w1, Raise e)
    | (w1, inr rw) =>
        (write_pbmsg (snd rw) req ;;;
         resp <- lift (answer d req) ;;
         emit [closed (snd rw)] ;;;
         lift (raise_if_failed resp) ;;;
         update_self (λ c, with_handlers (<[proto := handler_cb]> (handlers c)) c)) w1
    end) by reflexivity.
  rewrite E. clear E.
  destruct (open_connection d (daemon_connector (self w)) w) as [w1 [e|rw]] eqn:Hopen;
    [done|].
  apply open_connection_self in Hopen as Hself.
  unfold bind, write_pbmsg, emit, lift, update_self; cbn.
  destruct (answer d req) as [e|resp]; cbn; [done|].
  destruct (raise_if_failed resp) as [e|[]]; cbn; [done|]. by rewrite Hself.
Qed.

(** X12: after [stream_handler] has returned, an inbound stream for the
    protocol is dispatched to the callback just registered, whether or
    not the protocol had a stream handler before: a later registration
    replaces an earlier one and raises no duplicate error. *)
Theorem stream_handler_then_inbound_stream d protocol handler_cb reader writer pb w :
  snd (stream_handler d protocol handler_cb w) = Return tt →
  pb_proto pb = protocol →
  let w1 := fst (stream_handler d protocol handler_cb w) in
  let stream_info := StreamInfo_from_protobuf pb in
  _handler reader writer (Return pb) w1
  = ({| self := self w1; futures := futures w1; allocated := allocated w1;
        trace := trace w1 ++ fst (handler_cb stream_info reader writer) |},
     snd (handler_cb stream_info reader writer)).
Proof.
  intros Hok Hproto w1 stream_info.
  assert (Hreg : handlers (self w1) !! protocol = Some handler_cb).
  { subst w1. rewrite (stream_handler_returns_registered _ _ _ _ Hok).
    apply lookup_insert_eq. }
  unfold _handler, bind, lift, get_self, emit. cbn beta iota zeta.
  fold stream_info. replace (proto stream_info) with protocol by done.
  unfold StreamHandler in *. rewrite Hreg.
  by destruct (handler_cb stream_info reader writer) as [effects [e|[]]].
Qed.

Lemma value_for_protocol_present maddr c :
  c ∈ maddr_protocols maddr →
  ∃ v, value_for_protocol maddr c = Return v ∧ {| code := c; value := v |} ∈ maddr.
Proof.
  unfold maddr_protocols. induction maddr as [|[c0 v0] maddr IH]; cbn.
  - by intros ?%elem_of_nil.
  - intros [->|Hin]%elem_of_cons.
    + rewrite decide_True by done. exists v0. split; [done|]. apply elem_of_cons; auto.
    + case_decide as Hc.
      * subst c0. exists v0. split; [done|]. apply elem_of_cons; auto.
      * destruct (IH Hin) as (v & -> & Hv). exists v. split; [done|].
        apply elem_of_cons; auto.
Qed.

Lemma value_for_protocol_absent maddr c :
  c ∉ maddr_protocols maddr →
  value_for_protocol maddr c = Raise (ProtocolLookupError c).
Proof.
  unfold maddr_protocols. induction maddr as [|[c0 v0] maddr IH]; cbn; [done|].
  intros Hnot. case_decide as Hc.
  - subst c0. exfalso. apply Hnot, elem_of_cons; auto.
  - apply IH. intros Hin. apply Hnot, elem_of_cons; auto.
Qed.

(** X13: a connector constructed for a unix control address always
    resolves its endpoint: [open_connection] dials the path of a unix
    component of the address and raises nothing before it dials. *)
Theorem unix_connector_resolves maddr dc :
  DaemonConnector_init maddr = Return dc →
  proto_code dc = P_UNIX →
  ∃ control_path,
    open_connection_endpoint dc = Return (UnixEndpoint control_path)
    ∧ {| code := P_UNIX; value := control_path |} ∈ maddr.
Proof.
  unfold DaemonConnector_init. intros Hinit Hcode.
  destruct (parse_conn_protocol_cases maddr)
    as [(_ & _ & E)|[(Hu & _ & E)|(_ & E)]];
    rewrite E in Hinit; cbn in Hinit; [| |done]; injection Hinit as <-.
  - cbn in Hcode. unfold P_IP4, P_UNIX in Hcode. lia.
  - destruct (value_for_protocol_present maddr P_UNIX Hu) as (v & Hv & Hin).
    exists v. split; [|done]. unfold open_connection_endpoint. cbn.
    rewrite decide_True by done. by rewrite Hv.
Qed.

(** X14: an ip4 control address without a tcp component is accepted by
    the constructor of the connector; the failure shows at
    [open_connection], which raises the [ProtocolLookupError] for tcp
    without dialling. *)
Theorem ip4_connector_without_tcp maddr :
  P_IP4 ∈ maddr_protocols maddr →
  P_UNIX ∉ maddr_protocols maddr →
  P_TCP ∉ maddr_protocols maddr →
  ∃ dc, DaemonConnector_init maddr = Return dc
        ∧ ∀ d w, open_connection d dc w = (w, Raise (ProtocolLookupError P_TCP)).
Proof.
  intros H4 Hu H6. unfold DaemonConnector_init.
  destruct (parse_conn_protocol_cases maddr)
    as [(_ & _ & E)|[(? & _ & _)|([[_ ?]|[? _]] & _)]]; [|done..].
  rewrite E. eexists. split; [reflexivity|]. intros d w.
  unfold open_connection, bind at 1, lift, open_connection_endpoint. cbn.
  rewrite decide_False by (unfold P_IP4, P_UNIX; lia).
  rewrite decide_True by done.
  destruct (value_for_protocol_present maddr P_IP4 H4) as (host & -> & _).
  by rewrite (value_for_protocol_absent maddr P_TCP H6).
Qed.

(** X15: [open_persistent_connection] either returns the two ends of one
    connection it has dialled, on which the upgrade request is the only
    thing written, or raises with the world untouched: the upgrade request
    is never written when the connection could not be opened. *)
Theorem open_persistent_connection_upgrades d dc w :
  (∃ endpoint reader writer,
      open_connection_endpoint dc = Return endpoint
      ∧ dial d endpoint = Return (reader, writer)
      ∧ open_persistent_connection d dc w
        = ({| self := self w; futures := futures w; allocated := allocated w;
              trace := trace w ++ [connected endpoint reader writer;
                                   wrote writer PERSISTENT_CONN_UPGRADE] |},
           Return (reader, writer)))
  ∨ (∃ e, open_persistent_connection d dc w = (w, Raise e)).
Proof.
  unfold open_persistent_connection, open_connection, bind, lift, emit, ret, write_pbmsg.
  destruct (open_connection_endpoint dc) as [e|endpoint] eqn:Hep; [right; eauto|].
  destruct (dial d endpoint) as [e|[reader writer]] eqn:Hdial; [right; eauto|].
  left. exists endpoint, reader, writer. cbn. by rewrite <- app_assoc.
Qed.

(** X16: [listen] raises the unsupported-transport [ValueError] exactly
    when the listen address does not hold exactly one supported transport
    kind, never reaches its "Protocol not supported" branch, and for a
    unix listen address always binds the path of a unix component. *)
Theorem listen_endpoint_resolution (c : ControlClient) :
  (listen_endpoint c
     = Raise (ValueError (connection_protocol_should_be_only_one (listen_maddr c)))
   ↔ ¬ ∃ k, only_present (listen_maddr c) k)
  ∧ (∀ k, listen_endpoint c ≠ Raise (ValueError (Protocol_not_supported k)))
  ∧ (only_present (listen_maddr c) P_UNIX →
     ∃ listen_path,
       listen_endpoint c = Return (UnixEndpoint listen_path)
       ∧ {| code := P_UNIX; value := listen_path |} ∈ listen_maddr c).
Proof.
  assert (Hne : P_IP4 ≠ P_UNIX) by (unfold P_IP4, P_UNIX; lia).
  assert (Hval : ∀ m k e, value_for_protocol m k = Raise (ValueError e) → False).
  { induction m as [|comp m IH]; intros k e; cbn; [done|].
    case_decide; [done|apply IH]. }
  assert (Hint : ∀ s e, int s = Raise (ValueError e) → ∃ s', e = invalid_literal_for_int s').
  { intros s e. unfold int. destruct s; [intros [= <-]; eauto|].
    destruct (int_digits _ _); [done|]. intros [= <-]. eauto. }
  unfold listen_endpoint, only_present.
  setoid_rewrite present_cases.
  destruct (parse_conn_protocol_cases (listen_maddr c))
    as [(H4 & Hu & ->)|[(Hu & H4 & ->)|(H & ->)]]; cbn zeta in *.
  - rewrite decide_False, decide_True by done.
    destruct (value_for_protocol _ P_IP4) as [e4|host] eqn:E4;
      [|destruct (value_for_protocol _ P_TCP) as [e6|p] eqn:E6;
        [|destruct (int p) as [ei|port] eqn:Ei]].
    all: split; [split; [intros [= ->]|intros []; exists P_IP4; naive_solver]|].
    all: try (exfalso; by eapply Hval).
    all: try (apply Hint in Ei as [? [=]]).
    all: split; [|naive_solver].
    all: intros k [= ->]; try (by eapply Hval); try (by apply Hint in Ei as [? [=]]).
  - rewrite decide_True by done.
    destruct (value_for_protocol_present _ P_UNIX Hu) as (v & -> & Hin).
    split; [split; [done|intros []; exists P_UNIX; naive_solver]|].
    split; [done|]. intros _. eauto.
  - split; [split; [intros _|done]|split; [done|]].
    + intros (k & Hk & Huniq). destruct H as [[H4 Hu]|[H4 Hu]]; [|naive_solver].
      assert (P_IP4 = k) by (apply Huniq; auto).
      assert (P_UNIX = k) by (apply Huniq; auto). congruence.
    + intros [Hk Huniq]. destruct H as [[H4 Hu]|[H4 Hu]]; [|naive_solver].
      assert (P_IP4 = P_UNIX) by (apply Huniq; auto). done.
Qed.

End streams_and_endpoints.

(** ** One-shot commands *)
Section one_shot_commands.

Local Set Default Proof Using "Type".

Context {PeerInfoPb PeerInfo : Type}.
Variable identify_id : Response → bytes.
Variable identify_addrs : Response → list bytes.
Variable peers : Response → list PeerInfoPb.
Variable streamInfo : Response → StreamInfoPb.
Variable Multiaddr_of_bytes : bytes → Outcome Multiaddr.
Variable PeerInfo_from_protobuf : PeerInfoPb → Outcome PeerInfo.

Implicit Types (d : CommandDaemon) (c : ControlClient) (resp : Response).

Lemma cmd_open_connection_dials d c endpoint reader writer :
  dials d c endpoint reader writer →
  cmd_open_connection d (daemon_connector c)
  = ([cmd_connected endpoint reader writer], Return (reader, writer)).
Proof.
  intros [Hep Hdial]. unfold cmd_open_connection, io_bind, io_lift, io_emit, io_ret.
  by rewrite Hep, Hdial.
Qed.

Lemma cmd_open_connection_fails d c :
  (∃ endpoint reader writer, dials d c endpoint reader writer)
  ∨ (∃ e, cmd_open_connection d (daemon_connector c) = ([], Raise e)).
Proof.
  unfold dials, cmd_open_connection, io_bind, io_lift, io_emit, io_ret.
  destruct (open_connection_endpoint _) as [e|endpoint]; [right; eauto|].
  destruct (cmd_dial d endpoint) as [e|[reader writer]] eqn:Hdial; [right; eauto|].
  left. eauto.
Qed.

Lemma tuple_of_Forall2 {A B} (f : A → Outcome B) (xs : list A) (ys : list B) :
  tuple_of f xs = Return ys ↔ Forall2 (λ x y, f x = Return y) xs ys.
Proof.
  revert ys. induction xs as [|x xs IH]; intros ys; cbn.
  - split; [intros [= <-]; constructor|by intros ->%Forall2_nil_inv_l].
  - destruct (f x) as [e|y] eqn:Hx.
    + split; [done|]. intros (y & ys' & Hy & _ & _)%Forall2_cons_inv_l. congruence.
    + destruct (tuple_of f xs) as [e|ys'] eqn:Hxs.
      * split; [done|]. intros (y' & ys'' & _ & Hys & _)%Forall2_cons_inv_l.
        by apply IH in Hys.
      * split.
        -- intros [= <-]. constructor; [done|]. by apply IH.
        -- intros (y' & ys'' & Hy & Hys & ->)%Forall2_cons_inv_l.
           apply IH in Hys. congruence.
Qed.

Ltac run_command Hdials :=
  unfold io_bind; rewrite (cmd_open_connection_dials _ _ _ _ _ Hdials);
  unfold io_bind, io_lift, io_emit, io_ret; cbn.

(** X17: [identify], [connect], [list_peers] and [disconnect] close the
    connection they have opened exactly when a response was read from it,
    also when the response reports a failure or cannot be decoded
    further; when reading the response raises, the connection is left
    open. *)
Theorem commands_close_after_response d c peer_id maddrs endpoint reader writer :
  dials d c endpoint reader writer →
  (cmd_closed writer ∈ fst (identify identify_id identify_addrs Multiaddr_of_bytes d c)
   ↔ ∃ resp, cmd_answer d IDENTIFY = Return resp)
  ∧ (cmd_closed writer ∈ fst (connect d c peer_id maddrs)
     ↔ ∃ resp, cmd_answer d (CONNECT (to_bytes peer_id) maddrs) = Return resp)
  ∧ (cmd_closed writer ∈ fst (list_peers peers PeerInfo_from_protobuf d c)
     ↔ ∃ resp, cmd_answer d LIST_PEERS = Return resp)
  ∧ (cmd_closed writer ∈ fst (disconnect d c peer_id)
     ↔ ∃ resp, cmd_answer d (DISCONNECT (to_bytes peer_id)) = Return resp).
Proof.
  intros Hdials. repeat split.
  all: try (unfold identify, connect, list_peers, disconnect; cbn zeta;
            run_command Hdials;
            destruct (cmd_answer d _) as [e|resp]; cbn;
            [rewrite !elem_of_cons, elem_of_nil; naive_solver|];
            intros _; eexists; reflexivity).
  all: unfold identify, connect, list_peers, disconnect; cbn zeta;
       run_command Hdials;
       intros [resp ->]; cbn;
       destruct (raise_if_failed resp) as [e|[]]; cbn;
       try destruct (tuple_of _ _); cbn;
       rewrite !elem_of_cons; auto.
Qed.

(** X18: [connect] and [disconnect] return exactly when the response was
    read and passed the status check; a failed check is raised after the
    connection has been closed, and one request was written before. *)
Theorem connect_disconnect_status d c peer_id maddrs endpoint reader writer resp :
  dials d c endpoint reader writer →
  (cmd_answer d (CONNECT (to_bytes peer_id) maddrs) = Return resp →
   connect d c peer_id maddrs
   = ([cmd_connected endpoint reader writer;
       cmd_wrote writer (CONNECT (to_bytes peer_id) maddrs);
       cmd_closed writer],
      raise_if_failed resp))
  ∧ (cmd_answer d (DISCONNECT (to_bytes peer_id)) = Return resp →
     disconnect d c peer_id
     = ([cmd_connected endpoint reader writer;
         cmd_wrote writer (DISCONNECT (to_bytes peer_id));
         cmd_closed writer],
        raise_if_failed resp)).
Proof.
  intros Hdials. split; intros Hresp.
  - unfold connect; cbn zeta. run_command Hdials. rewrite Hresp. cbn.
    by destruct (raise_if_failed resp) as [e|[]].
  - unfold disconnect; cbn zeta. run_command Hdials. rewrite Hresp. cbn.
    by destruct (raise_if_failed resp) as [e|[]].
Qed.

(** X19: [stream_open] never closes a connection: when it returns, the
    caller gets the two ends of the connection that was dialled and the
    stream metadata decoded from a response that passed the status check;
    when the check fails or the response cannot be read, the connection
    it has opened stays open. *)
Theorem stream_open_keeps_connection d c peer_id protocols :
  (∀ writer, cmd_closed writer ∉ fst (stream_open streamInfo d c peer_id protocols))
  ∧ (∀ stream_info reader writer,
      snd (stream_open streamInfo d c peer_id protocols)
        = Return (stream_info, reader, writer) →
      ∃ endpoint resp,
        dials d c endpoint reader writer
        ∧ cmd_answer d (STREAM_OPEN (to_bytes peer_id) protocols) = Return resp
        ∧ raise_if_failed resp = Return tt
        ∧ stream_info = StreamInfo_from_protobuf (streamInfo resp)).
Proof.
  clear identify_id identify_addrs peers Multiaddr_of_bytes PeerInfo_from_protobuf.
  unfold stream_open; cbn zeta.
  destruct (cmd_open_connection_fails d c) as [(endpoint & reader & writer & Hdials)|[e He]].
  - run_command Hdials.
    destruct (cmd_answer d _) as [e|resp] eqn:Hresp; cbn.
    { split; [|done]. intros w. rewrite !elem_of_cons, elem_of_nil. naive_solver. }
    destruct (raise_if_failed resp) as [e|[]] eqn:Hcheck; cbn.
    { split; [|done]. intros w. rewrite !elem_of_cons, elem_of_nil. naive_solver. }
    split.
    + intros w. rewrite !elem_of_cons, elem_of_nil. naive_solver.
    + intros ? ? ? [= <- <- <-]. eauto 10.
  - unfold io_bind. rewrite He. cbn. split; [|done]. intros w. apply not_elem_of_nil.
Qed.

(** X20: when [identify] returns, the connection has been closed, the
    peer identity holds the identity bytes of a response that passed the
    status check, and the addresses are the decoded addresses of that
    response, one for each and in the order of the response. *)
Theorem identify_returns_decoded d c peer_id maddrs :
  snd (identify identify_id identify_addrs Multiaddr_of_bytes d c)
    = Return (peer_id, maddrs) →
  ∃ endpoint reader writer resp,
    dials d c endpoint reader writer
    ∧ cmd_answer d IDENTIFY = Return resp
    ∧ raise_if_failed resp = Return tt
    ∧ to_bytes peer_id = identify_id resp
    ∧ Forall2 (λ b maddr, Multiaddr_of_bytes b = Return maddr) (identify_addrs resp) maddrs
    ∧ fst (identify identify_id identify_addrs Multiaddr_of_bytes d c)
      = [cmd_connected endpoint reader writer; cmd_wrote writer IDENTIFY;
         cmd_closed writer].
Proof.
  unfold identify; cbn zeta.
  destruct (cmd_open_connection_fails d c) as [(endpoint & reader & writer & Hdials)|[e He]].
  - run_command Hdials.
    destruct (cmd_answer d _) as [e|resp] eqn:Hresp; cbn; [done|].
    destruct (raise_if_failed resp) as [e|[]] eqn:Hcheck; cbn; [done|].
    destruct (tuple_of _ _) as [e|ms] eqn:Hms; cbn; [done|].
    intros [= <- <-]. exists endpoint, reader, writer, resp.
    split; [done|]. split; [done|]. split; [done|]. split; [done|].
    split; [|done]. by apply tuple_of_Forall2.
  - unfold io_bind. by rewrite He.
Qed.

(** X21: when [list_peers] returns, its result holds the decoded peers of
    a response that passed the status check, one for each and in the
    order of the response; a peer that cannot be decoded makes the whole
    call raise. *)
Theorem list_peers_returns_decoded d c infos :
  snd (list_peers peers PeerInfo_from_protobuf d c) = Return infos →
  ∃ resp,
    cmd_answer d LIST_PEERS = Return resp
    ∧ raise_if_failed resp = Return tt
    ∧ Forall2 (λ pinfo info, PeerInfo_from_protobuf pinfo = Return info) (peers resp) infos.
Proof.
  unfold list_peers; cbn zeta.
  destruct (cmd_open_connection_fails d c) as [(endpoint & reader & writer & Hdials)|[e He]].
  - run_command Hdials.
    destruct (cmd_answer d _) as [e|resp] eqn:Hresp; cbn; [done|].
    destruct (raise_if_failed resp) as [e|[]] eqn:Hcheck; cbn; [done|].
    destruct (tuple_of _ _) as [e|ms] eqn:Hms; cbn; [done|].
    intros [= <-]. exists resp. split; [done|]. split; [done|].
    by apply tuple_of_Forall2.
  - unfold io_bind. by rewrite He.
Qed.

End one_shot_commands.

(** ** The resolver and the order of protocols *)
Section resolver_more.

(** X22: [parse_conn_protocol] looks at the set of protocols of the
    address only: two addresses with the same protocols, in whatever
    order and however often repeated, resolve to the same transport
    code. *)
Theorem parse_conn_protocol_same_protocols (maddr1 maddr2 : Multiaddr) (c : Z) :
  (∀ k, k ∈ maddr_protocols maddr1 ↔ k ∈ maddr_protocols maddr2) →
  parse_conn_protocol maddr1 = Return c ↔ parse_conn_protocol maddr2 = Return c.
Proof.
  intros Hsame.
  destruct (parse_conn_protocol_cases maddr1)
    as [(H4 & Hu & ->)|[(Hu & H4 & ->)|(H & ->)]];
    destruct (parse_conn_protocol_cases maddr2)
      as [(H4' & Hu' & ->)|[(Hu' & H4' & ->)|(H' & ->)]];
    cbn zeta in *; rewrite ?Hsame in *; try done; naive_solver.
Qed.

End resolver_more.

(** ** Concrete runs *)

Example parse_ip4_tcp :
  parse_conn_protocol [ {| code := P_IP4; value := "127.0.0.1" |};
                        {| code := P_TCP; value := "4001" |} ] = Return P_IP4.
Proof. vm_compute. reflexivity. Qed.

Example parse_no_transport :
  parse_conn_protocol [ {| code := P_TCP; value := "4001" |} ]
  = Raise (ValueError (connection_protocol_should_be_only_one
                         [ {| code := P_TCP; value := "4001" |} ])).
Proof. vm_compute. reflexivity. Qed.

Example parse_two_transports :
  ∃ e, parse_conn_protocol [ {| code := P_IP4; value := "127.0.0.1" |};
                             {| code := P_UNIX; value := "/tmp/p2pd.sock" |} ]
       = Raise (ValueError e).
Proof. eexists. vm_compute. reflexivity. Qed.

(** The scenario of the spec: an inbound stream for ["echo/1.0"] with no
    registered handler is closed and reported. *)
Example unregistered_stream_rejected :
  _handler 3 4 (Return {| pb_peer := []; pb_addr := []; pb_proto := "echo/1.0" |})
           (World_init established_client)
  = ({| self := established_client; futures := λ _, PENDING; allocated := 0;
        trace := [closed 4] |},
     Raise (DispatchFailure (KeyError "echo/1.0"))).
Proof. reflexivity. Qed.

(** C1, counterexample: a call is pending when the read of the next frame
    fails; the loop terminates, the future of the call is still pending,
    not failed, and the caller that awaits it stays suspended. *)
Lemma read_loop_termination_leaves_call_pending :
  pending_calls (self one_pending_call) !! example_call_id = Some 0
  ∧ _read_from_persistent_conn [Raise (ReadError "incomplete frame")] one_pending_call
    = (one_pending_call, terminated (ReadError "incomplete frame"))
  ∧ futures (fst (_read_from_persistent_conn [Raise (ReadError "incomplete frame")]
                    one_pending_call)) 0 = PENDING
  ∧ snd (call_unary_handler_resume example_call_id 0 None
           (fst (_read_from_persistent_conn [Raise (ReadError "incomplete frame")]
                   one_pending_call)))
    = Suspended 0.
Proof. repeat split; vm_compute; reflexivity. Qed.

Lemma read_loop_termination_fails_no_call_example :
  ∃ processed last rest,
    [Raise (ReadError "incomplete frame")] = processed ++ last :: rest
    ∧ _read_from_persistent_conn processed one_pending_call
      = (one_pending_call, awaiting_input)
    ∧ (last = Raise (ReadError "incomplete frame")
       ∨ ∃ resp, last = Return resp
                 ∧ read_iteration resp one_pending_call
                   = (one_pending_call, Raise (ReadError "incomplete frame"))).
Proof.
  apply (read_loop_termination_fails_no_call
           [Raise (ReadError "incomplete frame")] one_pending_call).
  reflexivity.
Defined.

(** C3, counterexample: the handler of the protocol is registered and
    raises a [CancelledError]; the request handler raises it too and the
    queue stays empty, so no response frame is produced. *)
Lemma cancelled_handler_enqueues_nothing :
  unary_handlers (self (serving cancelled_handler)) !! "echo/1.0" = Some cancelled_handler
  ∧ snd (_handle_persistent_request inbound_echo_request id (serving cancelled_handler))
    = Raise (UserRaised {| is_Exception := false; repr := "CancelledError()" |})
  ∧ pending_messages
      (self (fst (_handle_persistent_request inbound_echo_request id
                    (serving cancelled_handler)))) = [].
Proof. repeat split; vm_compute; reflexivity. Qed.

Lemma handle_persistent_request_response_echo :
  snd (_handle_persistent_request inbound_echo_request id (serving echo)) = Return tt
  ∧ pending_messages
      (self (fst (_handle_persistent_request inbound_echo_request id (serving echo))))
    = pending_messages (self (serving echo))
      ++ [SEND_RESPONSE_TO_REMOTE
            {| callId := UUID_bytes example_call_id; outcome := result hello |}].
Proof.
  apply (handle_persistent_request_response inbound_echo_request id echo (serving echo)).
  vm_compute. reflexivity.
Defined.

(** C6, counterexample: the call identifier has an entry and the frame
    carries a payload, but the future of the entry already holds the
    result of an earlier frame; [set_result] raises [InvalidStateError],
    the future keeps the earlier result and the read loop terminates. *)
Lemma second_result_terminates_read_loop :
  pending_calls (self one_resolved_call) !! example_call_id = Some 0
  ∧ callUnaryResponse (result_response example_call_id again)
    = Some {| callId := UUID_bytes example_call_id; outcome := result again |}
  ∧ UUID (UUID_bytes example_call_id) = Return example_call_id
  ∧ read_iteration (result_response example_call_id again) one_resolved_call
    = (one_resolved_call, Raise InvalidStateError)
  ∧ _read_from_persistent_conn [Return (result_response example_call_id again)]
      one_resolved_call
    = (one_resolved_call, terminated InvalidStateError)
  ∧ futures one_resolved_call 0 = FINISHED hello.
Proof. repeat split; vm_compute; reflexivity. Qed.

Lemma read_loop_call_result_example :
  read_iteration (result_response example_call_id hello) one_pending_call
  = ({| self := self one_pending_call;
        futures := <[0 := FINISHED hello]> (futures one_pending_call);
        allocated := 1; trace := [] |}, Return tt).
Proof.
  refine (proj1 (proj1 (read_loop_call_result
                          (result_response example_call_id hello)
                          {| callId := UUID_bytes example_call_id; outcome := result hello |}
                          example_call_id [] one_pending_call _ _) 0 hello _ _ _)).
  - reflexivity.
  - vm_compute. reflexivity.
  - vm_compute. reflexivity.
  - reflexivity.
  - reflexivity.
Defined.

(** C4, at concrete inputs: [echo] is stored for ["echo/1.0"].  On a
    client whose channel is not established the second registration
    raises the error of the lock and not the "already assigned"
    [ValueError]; on an established channel it raises the [ValueError] and
    [echo] stays; a stored falsy handler is replaced and the call
    returns. *)
Lemma add_unary_handler_duplicate_echo :
  add_unary_handler example_daemon "echo/1.0" cancelled_handler registered_not_established
  = (registered_not_established, Raise LockTypeError)
  ∧ (∃ w', add_unary_handler example_daemon "echo/1.0" cancelled_handler (serving echo)
           = (w', Raise (ValueError (Handler_already_assigned "echo/1.0")))
           ∧ unary_handlers (self w') = unary_handlers (self (serving echo))
           ∧ unary_handlers (self w') !! "echo/1.0" = Some echo)
  ∧ (∃ w', add_unary_handler example_daemon "echo/1.0" echo (serving falsy_handler)
           = (w', Return tt)
           ∧ unary_handlers (self w')
             = <["echo/1.0" := echo]> (unary_handlers (self (serving falsy_handler)))
           ∧ unary_handlers (self w') !! "echo/1.0" = Some echo).
Proof.
  split; [|split].
  - refine (proj1 (add_unary_handler_duplicate example_daemon "echo/1.0" echo
                     cancelled_handler registered_not_established _) _); reflexivity.
  - refine (proj1 (proj2 (add_unary_handler_duplicate example_daemon "echo/1.0" echo
                            cancelled_handler (serving echo) _)) _ _); reflexivity.
  - refine (proj2 (proj2 (add_unary_handler_duplicate example_daemon "echo/1.0"
                            falsy_handler echo (serving falsy_handler) _)) _ _);
      reflexivity.
Defined.

Lemma call_unary_handler_removes_call_id_example :
  pending_calls
    (self (fst (call_unary_handler example_daemon example_call_id {| to_bytes := [Byte.x01] |}
                  "echo/1.0" hello result_arrives None (World_init established_client))))
    !! example_call_id = None.
Proof.
  apply (call_unary_handler_removes_call_id example_daemon example_call_id
           {| to_bytes := [Byte.x01] |} "echo/1.0" hello result_arrives None
           (World_init established_client) _ (Return hello)).
  - vm_compute. reflexivity.
  - vm_compute. reflexivity.
Defined.

(** The same call returns the payload. *)
Example call_unary_handler_returns_payload :
  snd (call_unary_handler example_daemon example_call_id {| to_bytes := [Byte.x01] |}
         "echo/1.0" hello result_arrives None (World_init established_client))
  = Completed (Return hello).
Proof. vm_compute. reflexivity. Qed.

(** A caller that gives up: its task is cancelled, which cancels the
    future it awaits; the call ends with [CancelledError] and the entry is
    gone, so the response that arrives later is logged and dropped. *)
Example abandoned_call_then_late_response :
  let cancel w :=
    {| self := self w; futures := <[0 := CANCELLED]> (futures w);
       allocated := allocated w; trace := trace w |} in
  let after := call_unary_handler example_daemon example_call_id {| to_bytes := [Byte.x01] |}
                 "echo/1.0" hello cancel None (World_init established_client) in
  snd after = Completed (Raise CancelledError)
  ∧ pending_calls (self (fst after)) = ∅
  ∧ snd (read_iteration (result_response example_call_id hello) (fst after)) = Return tt
  ∧ trace (fst (read_iteration (result_response example_call_id hello) (fst after)))
    = [logged "received unexpected unary call"].
Proof. repeat split; vm_compute; reflexivity. Qed.

(** The scenario of the spec: the daemon answers a registration with a
    failure status; the call raises with the message and no handler is
    registered. *)
Example stream_handler_refused :
  let refusing :=
    {| dial := λ _, Return (1, 1);
       answer := λ _, Return {| type := ERROR; error_msg := "no route to host";
                                callUnaryResponse := None; requestHandling := None |} |} in
  let after := stream_handler refusing "echo/1.0" (λ _ _ _, ([], Return tt))
                 (World_init established_client) in
  snd after = Raise (ControlFailure "no route to host")
  ∧ handlers (self (fst after)) = ∅.
Proof. split; vm_compute; reflexivity. Qed.

(** ** Concrete runs of the further properties *)

(** X1, example: a call for ["echo/1.0"] whose result frame arrives while
    the caller is suspended returns the payload of the frame. *)
Lemma call_unary_handler_receives_response_example :
  snd (call_unary_handler example_daemon example_call_id {| to_bytes := [Byte.x01] |}
         "echo/1.0" hello
         (λ w1, fst (read_iteration (result_response example_call_id hello) w1))
         None (World_init established_client))
  = Completed (Return hello).
Proof.
  refine (proj1 (proj1 (call_unary_handler_receives_response example_daemon
                          example_call_id {| to_bytes := [Byte.x01] |} "echo/1.0" hello
                          (World_init established_client) _ _ _) hello)).
  - reflexivity.
  - vm_compute. reflexivity.
  - vm_compute. reflexivity.
Defined.

(** X2, example: the request enqueued by a call with identifier 7. *)
Lemma call_unary_handler_request_matches_entry_example :
  ∃ w1 fut req,
    call_unary_handler_begin example_daemon example_call_id {| to_bytes := [Byte.x01] |}
      "echo/1.0" hello (World_init established_client) = (w1, Return fut)
    ∧ pending_messages (self w1)
      = pending_messages (self (World_init established_client)) ++ [CALL_UNARY req]
    ∧ req_peer req = [Byte.x01] ∧ req_proto req = "echo/1.0" ∧ req_data req = hello
    ∧ UUID (req_callId req) = Return example_call_id
    ∧ pending_calls (self w1) !! example_call_id = Some fut
    ∧ futures w1 fut = PENDING.
Proof.
  apply (call_unary_handler_request_matches_entry example_daemon example_call_id
           {| to_bytes := [Byte.x01] |} "echo/1.0" hello (World_init established_client)).
  - reflexivity.
  - vm_compute. reflexivity.
Defined.

(** X3, example: calls 7 and 8 are suspended and the result for 8 arrives. *)
Lemma concurrent_calls_keep_their_results_example :
  let first :=
    call_unary_handler_begin example_daemon 7%N {| to_bytes := [Byte.x01] |}
      "echo/1.0" hello (World_init established_client) in
  let second :=
    call_unary_handler_begin example_daemon 8%N {| to_bytes := [Byte.x02] |}
      "echo/1.0" again (fst first) in
  let arrived := fst (read_iteration (result_response 8%N again) (fst second)) in
  ∃ fut1 fut2,
    snd first = Return fut1 ∧ snd second = Return fut2
    ∧ snd (call_unary_handler_resume 8%N fut2 None arrived) = Completed (Return again)
    ∧ snd (call_unary_handler_resume 7%N fut1 None
             (fst (call_unary_handler_resume 8%N fut2 None arrived)))
      = Suspended fut1
    ∧ pending_calls (self (fst (call_unary_handler_resume 8%N fut2 None arrived))) !! 7%N
      = Some fut1.
Proof.
  apply (concurrent_calls_keep_their_results example_daemon 7%N 8%N
           {| to_bytes := [Byte.x01] |} "echo/1.0" hello
           {| to_bytes := [Byte.x02] |} "echo/1.0" again again
           (World_init established_client)).
  - reflexivity.
  - discriminate.
  - vm_compute. reflexivity.
Defined.

(** X4, example: [echo] is registered on an established client and an
    inbound call for its protocol is answered. *)
Lemma add_unary_handler_then_inbound_call_example :
  let registered :=
    add_unary_handler example_daemon "echo/1.0" echo (World_init established_client) in
  let answered := _handle_persistent_request inbound_echo_request id (fst registered) in
  snd registered = Return tt
  ∧ unary_handlers (self (fst registered)) = <[ "echo/1.0" := echo ]> ∅
  ∧ handlers (self (fst registered)) = ∅
  ∧ snd answered = Return tt
  ∧ pending_messages (self (fst answered))
    = [] ++ [ADD_UNARY_HANDLER "echo/1.0";
             SEND_RESPONSE_TO_REMOTE
               {| callId := UUID_bytes example_call_id; outcome := result hello |}].
Proof.
  apply (add_unary_handler_then_inbound_call example_daemon "echo/1.0" echo
           inbound_echo_request hello (World_init established_client)).
  - reflexivity.
  - vm_compute. reflexivity.
  - reflexivity.
  - reflexivity.
Defined.

(** X5, example: a second registration for ["echo/1.0"] raises, and its
    request is at the end of the queue. *)
Lemma add_unary_handler_duplicate_still_enqueues_example :
  pending_messages
    (self (fst (add_unary_handler example_daemon "echo/1.0" cancelled_handler
                  (serving echo))))
  = pending_messages (self (serving echo)) ++ [ADD_UNARY_HANDLER "echo/1.0"]
  ∧ (snd (add_unary_handler example_daemon "echo/1.0" cancelled_handler (serving echo))
     = Raise (ValueError (Handler_already_assigned "echo/1.0"))
     ↔ ∃ first, unary_handlers (self (serving echo)) !! "echo/1.0" = Some first
                ∧ truth_value first = true).
Proof.
  split.
  - refine (proj1 (add_unary_handler_duplicate_still_enqueues example_daemon "echo/1.0"
                     cancelled_handler (serving echo) _)). reflexivity.
  - refine (proj1 (proj2 (add_unary_handler_duplicate_still_enqueues example_daemon
                            "echo/1.0" cancelled_handler (serving echo) _))).
    reflexivity.
Defined.

(** X7, example: a frame with a one-byte call identifier stops the loop
    before the well-formed frame that follows it. *)
Lemma read_loop_malformed_call_id_example :
  _read_from_persistent_conn
    [Return short_call_id_response; Return (result_response example_call_id hello)]
    one_pending_call
  = (one_pending_call, terminated (ValueError bytes_is_not_a_16_char_string)).
Proof.
  apply (read_loop_malformed_call_id short_call_id_response
           {| callId := [Byte.x01]; outcome := result hello |}).
  - reflexivity.
  - cbn. lia.
Defined.

(** X8, example: an inbound call for ["echo/1.0"] on a client without
    unary handlers. *)
Lemma read_loop_inbound_call_unregistered_example :
  _read_from_persistent_conn [Return inbound_call_frame] one_pending_call
  = _read_from_persistent_conn []
      {| self := self one_pending_call; futures := futures one_pending_call;
         allocated := allocated one_pending_call;
         trace := trace one_pending_call
                  ++ [created_task (request_task inbound_echo_request)] |}
  ∧ ∀ w', unary_handlers (self w') !! req_proto inbound_echo_request = None →
          _handle_persistent_request inbound_echo_request id w' = (w', Raise AssertionError).
Proof.
  apply (read_loop_inbound_call_unregistered inbound_call_frame inbound_echo_request
           [] id one_pending_call); reflexivity.
Defined.

(** X10, example: five iterations on a queue of two messages. *)
Lemma write_loop_drains_in_order_example :
  let w' := _write_to_persistent_conn 2 5 two_queued in
  trace w' = trace two_queued ++ (wrote 2 <$> pending_messages (self two_queued))
  ∧ pending_messages (self w') = []
  ∧ futures w' = futures two_queued
  ∧ pending_calls (self w') = pending_calls (self two_queued)
  ∧ unary_handlers (self w') = unary_handlers (self two_queued)
  ∧ handlers (self w') = handlers (self two_queued).
Proof.
  apply (write_loop_drains_in_order 2 5 two_queued). cbn. lia.
Defined.

(** X11, example: the upgrade request and a registration request. *)
Lemma put_put_write_order_example :
  trace (_write_to_persistent_conn 2 2
           (fst ((put PERSISTENT_CONN_UPGRADE ;;; put (ADD_UNARY_HANDLER "echo/1.0"))
                   (World_init established_client))))
  = trace (World_init established_client)
    ++ (wrote 2 <$> pending_messages (self (World_init established_client)))
    ++ [wrote 2 PERSISTENT_CONN_UPGRADE; wrote 2 (ADD_UNARY_HANDLER "echo/1.0")].
Proof.
  apply (put_put_write_order 2 PERSISTENT_CONN_UPGRADE (ADD_UNARY_HANDLER "echo/1.0") 2
           (World_init established_client)).
  cbn. lia.
Defined.
(** X12, example: a stream handler is registered and an inbound stream
    for its protocol reaches it. *)
Lemma stream_handler_then_inbound_stream_example :
  let w1 := fst (stream_handler example_daemon "echo/1.0" closing_stream_handler
                   (World_init established_client)) in
  _handler 3 4 (Return echo_stream_pb) w1
  = ({| self := self w1; futures := futures w1; allocated := allocated w1;
        trace := trace w1 ++ [closed 4] |},
     Return tt).
Proof.
  apply (stream_handler_then_inbound_stream example_daemon "echo/1.0"
           closing_stream_handler 3 4 echo_stream_pb (World_init established_client)).
  - vm_compute. reflexivity.
  - reflexivity.
Defined.

(** X13, example: the connector of the default control address. *)
Lemma unix_connector_resolves_default :
  ∃ control_path,
    open_connection_endpoint default_connector = Return (UnixEndpoint control_path)
    ∧ {| code := P_UNIX; value := control_path |} ∈ DEFAULT_CONTROL_MADDR.
Proof.
  apply (unix_connector_resolves DEFAULT_CONTROL_MADDR default_connector).
  - vm_compute. reflexivity.
  - reflexivity.
Defined.

(** X14, example: an ip4 address with a udp component only. *)
Lemma ip4_connector_without_tcp_udp :
  ∃ dc, DaemonConnector_init ip4_udp_maddr = Return dc
        ∧ ∀ d w, open_connection d dc w = (w, Raise (ProtocolLookupError P_TCP)).
Proof.
  apply (ip4_connector_without_tcp ip4_udp_maddr).
  - cbn. apply elem_of_cons. by left.
  - cbn. rewrite !elem_of_cons, elem_of_nil. unfold P_UNIX, P_IP4. lia.
  - cbn. rewrite !elem_of_cons, elem_of_nil. unfold P_TCP, P_IP4. lia.
Defined.

(** X17, example: [connect] to a daemon that answers every command. *)
Lemma commands_close_after_response_example :
  cmd_closed 2 ∈ fst (connect example_command_daemon established_client
                        {| to_bytes := [Byte.x01] |} [ip4_tcp_maddr])
  ↔ ∃ resp, cmd_answer example_command_daemon (CONNECT [Byte.x01] [ip4_tcp_maddr])
            = Return resp.
Proof.
  refine (proj1 (proj2 (commands_close_after_response
                          (λ _, [Byte.x01]) (λ _, [[Byte.x04]]) (λ _ : Response, @nil nat)
                          (λ _, Return DEFAULT_CONTROL_MADDR) (λ n : nat, Return n)
                          example_command_daemon established_client
                          {| to_bytes := [Byte.x01] |} [ip4_tcp_maddr]
                          (UnixEndpoint "/tmp/p2pd.sock") 1 2 _))).
  split; vm_compute; reflexivity.
Defined.

(** X18, example: the events and the result of [connect]. *)
Lemma connect_disconnect_status_example :
  connect example_command_daemon established_client {| to_bytes := [Byte.x01] |}
    [ip4_tcp_maddr]
  = ([cmd_connected (UnixEndpoint "/tmp/p2pd.sock") 1 2;
      cmd_wrote 2 (CONNECT [Byte.x01] [ip4_tcp_maddr]);
      cmd_closed 2],
     raise_if_failed ok_response).
Proof.
  refine (proj1 (connect_disconnect_status example_command_daemon established_client
                   {| to_bytes := [Byte.x01] |} [ip4_tcp_maddr]
                   (UnixEndpoint "/tmp/p2pd.sock") 1 2 ok_response _) _).
  - split; vm_compute; reflexivity.
  - reflexivity.
Defined.

(** X20, example: a response with two addresses. *)
Lemma identify_returns_decoded_example :
  ∃ endpoint reader writer resp,
    dials example_command_daemon established_client endpoint reader writer
    ∧ cmd_answer example_command_daemon IDENTIFY = Return resp
    ∧ raise_if_failed resp = Return tt
    ∧ [Byte.x01] = [Byte.x01]
    ∧ Forall2 (λ b maddr, (Return DEFAULT_CONTROL_MADDR : Outcome Multiaddr) = Return maddr)
        [[Byte.x04]; [Byte.x06]] [DEFAULT_CONTROL_MADDR; DEFAULT_CONTROL_MADDR]
    ∧ fst (identify (λ _, [Byte.x01]) (λ _, [[Byte.x04]; [Byte.x06]])
             (λ _, Return DEFAULT_CONTROL_MADDR) example_command_daemon established_client)
      = [cmd_connected endpoint reader writer; cmd_wrote writer IDENTIFY;
         cmd_closed writer].
Proof.
  apply (identify_returns_decoded (λ _, [Byte.x01]) (λ _, [[Byte.x04]; [Byte.x06]])
           (λ _, Return DEFAULT_CONTROL_MADDR) example_command_daemon established_client
           {| to_bytes := [Byte.x01] |} [DEFAULT_CONTROL_MADDR; DEFAULT_CONTROL_MADDR]).
  vm_compute. reflexivity.
Defined.

(** X21, example: a response with two peers. *)
Lemma list_peers_returns_decoded_example :
  ∃ resp,
    cmd_answer example_command_daemon LIST_PEERS = Return resp
    ∧ raise_if_failed resp = Return tt
    ∧ Forall2 (λ pinfo info, (Return (S pinfo) : Outcome nat) = Return info) [1; 2] [2; 3].
Proof.
  apply (list_peers_returns_decoded (λ _, [1; 2]) (λ n : nat, Return (S n))
           example_command_daemon established_client [2; 3]).
  vm_compute. reflexivity.
Defined.

(** X22, example: an ip4/tcp address and a reordering of it with a
    repeated ip4 component. *)
Lemma parse_conn_protocol_same_protocols_example :
  parse_conn_protocol ip4_tcp_maddr = Return P_IP4
  ↔ parse_conn_protocol tcp_ip4_ip4_maddr = Return P_IP4.
Proof.
  apply (parse_conn_protocol_same_protocols ip4_tcp_maddr tcp_ip4_ip4_maddr P_IP4).
  intros k. cbn. rewrite !elem_of_cons, !elem_of_nil. tauto.
Defined.
